(** * taskwiki/cache.py: the line-addressed task cache

    A shallow embedding of [taskwiki/cache.py] (Python 2) and the
    properties of its stores, its save order and its line operations.

    Python objects are modelled as the module uses them:
    - a [dict] is a [gmap] from keys to values that may be [None];
    - a method that can raise is a state-and-exception computation
      [St S A]: it returns an [outcome] together with the state in which
      the exception (if any) left the object;
    - [VimwikiTask] objects are mutable and shared, so they live in an
      object table indexed by references;
    - loops without a bound take a [fuel] argument counting iterations. *)

From stdpp Require Import base option list gmap strings sorting.
From Stdlib Require Import ZArith Lia Ascii.

Open Scope string_scope.
Open Scope Z_scope.

(** ** Exceptions and outcomes *)

Inductive exn :=
  | NameError (name : string)
  | AttributeError (name : string)
  | TypeError
  | KeyError
  | IndexError
  | ValueError (message : string)
  | TaskWikiException (message : string)
  | TaskWarriorException.

Inductive outcome (A : Type) :=
  | Ok (a : A)
  | Raise (e : exn)
  | OutOfFuel.
Arguments Ok {A} a.
Arguments Raise {A} e.
Arguments OutOfFuel {A}.

(** A computation over an object of state [S]. *)
Definition St (S A : Type) : Type := S → outcome A * S.

Definition ret {S A} (a : A) : St S A := λ s, (Ok a, s).
Definition raise {S A} (e : exn) : St S A := λ s, (Raise e, s).
Definition out_of_fuel {S A} : St S A := λ s, (OutOfFuel, s).
Definition bind {S A B} (m : St S A) (k : A → St S B) : St S B :=
  λ s, match m s with
       | (Ok a, s') => k a s'
       | (Raise e, s') => (Raise e, s')
       | (OutOfFuel, s') => (OutOfFuel, s')
       end.
Definition gets {S A} (f : S → A) : St S A := λ s, (Ok (f s), s).
Definition modify {S} (f : S → S) : St S unit := λ s, (Ok tt, f s).

(** Run a method of a sub-object stored in a field of the enclosing one. *)
Definition zoom {S T A} (get : T → S) (set : S → T → T) (m : St S A) : St T A :=
  λ t, let '(r, s') := m (get t) in (r, set s' t).

Declare Scope py_scope.
Delimit Scope py_scope with py.
Notation "x <- m ;; k" := (bind m (λ x, k))
  (at level 100, m at next level, right associativity) : py_scope.
Notation "m ;; k" := (bind m (λ _, k))
  (at level 100, right associativity) : py_scope.
Open Scope py_scope.

(** [for x in xs: body] *)
Fixpoint for_ {S A} (xs : list A) (body : A → St S unit) : St S unit :=
  match xs with
  | [] => ret tt
  | x :: xs' => body x ;; for_ xs' body
  end.

(** Names bound at module level by the [import]s and [class] statements
    of cache.py.  A bare name inside a method body is looked up among
    these (and the builtins), never in the enclosing class. *)
Definition module_globals : list string :=
  ["vim"; "re"; "util"; "vwtask"; "viewport"; "regexp"; "TaskWarrior";
   "WarriorStore"; "NoNoneStore"; "TaskStore"; "VwtaskStore";
   "ViewportStore"; "LineStore"; "TaskCache"].

(** The attributes of a [NoNoneStore] (and of its four subclasses, which
    add [get_method] only) and those of a [TaskCache]: what [__init__]
    binds and what the class body defines. *)
Definition NoNoneStore_attributes : list string :=
  ["cache"; "store"; "__init__"; "__getitem__"; "__setitem__"; "values";
   "iteritems"; "get_method"].
Definition TaskCache_attributes : list string :=
  ["task"; "vwtask"; "viewport"; "line"; "warriors"; "buffer_has_authority";
   "__init__"; "vimwikitask_dependency_order"; "reset"; "load_vwtasks";
   "load_viewports"; "update_vwtasks_in_buffer"; "save_tasks"; "load_tasks";
   "update_vwtasks_from_tasks"; "evaluate_viewports"; "get_viewport_by_task";
   "rebuild_vimwikitask_cache"; "insert_line"; "remove_line"; "swap_lines";
   "get_relevant_tw"].

(** Evaluating a bare name that the module does not bind. *)
Definition unbound_name {S A} (name : string) : St S A := raise (NameError name).

(** Reading an attribute that neither the instance nor its class has. *)
Definition missing_attribute {S A} (name : string) : St S A :=
  raise (AttributeError name).

(** ** Keys

    The four stores are keyed by line numbers ([VwtaskStore],
    [ViewportStore]), by [ShortUUID]s ([TaskStore]) and by
    [(cls, line)] pairs ([LineStore]). *)

Abbreviation TaskWarrior := nat (only parsing).
Abbreviation ref := nat (only parsing).

Inductive pykey :=
  | KInt (n : Z)
  | KShortUUID (value : string) (tw : TaskWarrior)
  | KLine (cls : string) (line : string).

Global Instance pykey_eq_dec : EqDecision pykey.
Proof. solve_decision. Defined.

Global Instance pykey_countable : Countable pykey.
Proof.
  refine (inj_countable'
    (λ k, match k with
          | KInt n => inl n
          | KShortUUID v tw => inr (inl (v, tw))
          | KLine c l => inr (inr (c, l))
          end)
    (λ x, match x with
          | inl n => KInt n
          | inr (inl (v, tw)) => KShortUUID v tw
          | inr (inr (c, l)) => KLine c l
          end) _).
  by intros [].
Defined.

(** ** class NoNoneStore *)

Section NoNoneStore.
Context {V : Type}.

(** [self.store]; a Python dict may hold [None] as a value. *)
Abbreviation dict := (gmap pykey (option V)).

(** [x == key] between a stored item and a key. *)
Variable py_eq : option V → pykey → bool.

(** [self.store.get(key)] *)
Definition dict_get (d : dict) (key : pykey) : option V :=
  default None (d !! key).

(** [NoNoneStore.__getitem__].  The body calls the bare name
    [get_method] (not [self.get_method]) and then tests the bare name
    [vimwikitask] (not [item]); neither is in [module_globals]. *)
Definition NoNoneStore_getitem (key : pykey) : St dict (option V) :=
  item <- gets (λ d, dict_get d key) ;;
  item <- match item with
          | None => unbound_name "get_method"
          | Some _ => ret item
          end ;;
  vimwikitask <- unbound_name (A := option V) "vimwikitask" ;;
  match vimwikitask with
  | Some _ => modify (<[key := item]>)
  | None => ret tt
  end ;;
  ret item.

(** [key in self].  The class defines neither [__contains__] nor
    [__iter__], so the interpreter falls back on the sequence protocol:
    it evaluates [self[0]], [self[1]], ... and compares each item with
    [key] until [IndexError] ends the iteration. *)
Fixpoint NoNoneStore_contains (fuel : nat) (i : Z) (key : pykey)
    : St dict bool :=
  match fuel with
  | O => out_of_fuel
  | S fuel' => λ d,
      match NoNoneStore_getitem (KInt i) d with
      | (Ok x, d') =>
          if py_eq x key then (Ok true, d')
          else NoNoneStore_contains fuel' (i + 1) key d'
      | (Raise IndexError, d') => (Ok false, d')
      | (Raise e, d') => (Raise e, d')
      | (OutOfFuel, d') => (OutOfFuel, d')
      end
  end.

(** [del self[key]]: the class has [__setitem__] but no [__delitem__]. *)
Definition NoNoneStore_delitem (key : pykey) : St dict unit :=
  missing_attribute "__delitem__".

(** [NoNoneStore.__setitem__] *)
Definition NoNoneStore_setitem (fuel : nat) (key : pykey) (value : option V)
    : St dict unit :=
  match value with
  | None =>
      found <- NoNoneStore_contains fuel 0 key ;;
      if found : bool then NoNoneStore_delitem key else ret tt
  | Some _ => modify (<[key := value]>)
  end.

(** [NoNoneStore.values] and [NoNoneStore.iteritems] *)
Definition NoNoneStore_values (d : dict) : list (option V) :=
  (map_to_list d).*2.
Definition NoNoneStore_iteritems (d : dict) : list (pykey * option V) :=
  map_to_list d.

(** [self.get(key)]: [NoNoneStore] is not a dict and defines no [get]. *)
Definition NoNoneStore_get (key : pykey) : St dict (option V) :=
  missing_attribute "get".
End NoNoneStore.

(** The unbound name that a lookup runs into, given what
    [self.store.get(key)] returned. *)
Definition name_reached {V} (item : option V) : string :=
  match item with
  | Some _ => "vimwikitask"
  | None => "get_method"
  end.

(** ** Objects outside the module

    [vim.current.buffer], the tasklib connections and the [VimwikiTask]
    wrappers are provided by collaborators; the module only uses the
    operations modelled here. *)

(** A tasklib [Task]; the module reads [task['uuid']] only. *)
Record Task := { task_uuid : string; task_description : string }.

(** A [VimwikiTask]; the module reads and writes [task['line_number']]
    and reads [task.add_dependencies], a collection of other wrappers. *)
Record VimwikiTask := { line_number : Z; add_dependencies : list ref }.

(** What the collaborators observe. *)
Inductive event :=
  | Export (tw : TaskWarrior) (filters : list string)
  | SaveToTw (vimwikitask : ref).

(** The [TaskCache] instance together with the editor buffer and the
    wrapper objects it refers to. *)
Record TaskCache := {
  buffer : list string;
  objects : ref → VimwikiTask;
  task : gmap pykey (option Task);
  vwtask : gmap pykey (option ref);
  viewport : gmap pykey (option ref);
  line : gmap pykey (option ref);
  warriors : gmap string TaskWarrior;
  buffer_has_authority : bool;
  trace : list event
}.

Definition set_buffer (b : list string) (c : TaskCache) : TaskCache :=
  {| buffer := b; objects := objects c; task := task c; vwtask := vwtask c;
     viewport := viewport c; line := line c; warriors := warriors c;
     buffer_has_authority := buffer_has_authority c; trace := trace c |}.
Definition set_objects (h : ref → VimwikiTask) (c : TaskCache) : TaskCache :=
  {| buffer := buffer c; objects := h; task := task c; vwtask := vwtask c;
     viewport := viewport c; line := line c; warriors := warriors c;
     buffer_has_authority := buffer_has_authority c; trace := trace c |}.
Definition set_task (d : gmap pykey (option Task)) (c : TaskCache) : TaskCache :=
  {| buffer := buffer c; objects := objects c; task := d; vwtask := vwtask c;
     viewport := viewport c; line := line c; warriors := warriors c;
     buffer_has_authority := buffer_has_authority c; trace := trace c |}.
Definition set_vwtask (d : gmap pykey (option ref)) (c : TaskCache) : TaskCache :=
  {| buffer := buffer c; objects := objects c; task := task c; vwtask := d;
     viewport := viewport c; line := line c; warriors := warriors c;
     buffer_has_authority := buffer_has_authority c; trace := trace c |}.
Definition set_viewport (d : gmap pykey (option ref)) (c : TaskCache) : TaskCache :=
  {| buffer := buffer c; objects := objects c; task := task c; vwtask := vwtask c;
     viewport := d; line := line c; warriors := warriors c;
     buffer_has_authority := buffer_has_authority c; trace := trace c |}.
Definition set_line (d : gmap pykey (option ref)) (c : TaskCache) : TaskCache :=
  {| buffer := buffer c; objects := objects c; task := task c; vwtask := vwtask c;
     viewport := viewport c; line := d; warriors := warriors c;
     buffer_has_authority := buffer_has_authority c; trace := trace c |}.
Definition set_buffer_has_authority (a : bool) (c : TaskCache) : TaskCache :=
  {| buffer := buffer c; objects := objects c; task := task c; vwtask := vwtask c;
     viewport := viewport c; line := line c; warriors := warriors c;
     buffer_has_authority := a; trace := trace c |}.
Definition log (e : event) (c : TaskCache) : TaskCache :=
  {| buffer := buffer c; objects := objects c; task := task c; vwtask := vwtask c;
     viewport := viewport c; line := line c; warriors := warriors c;
     buffer_has_authority := buffer_has_authority c; trace := trace c ++ [e] |}.

Abbreviation M := (St TaskCache).

(** *** vim.current.buffer

    A list-like sequence of lines.  Item access counts a negative index
    from the end and raises [IndexError] out of range; [append(line, nr)]
    inserts below line [nr] and raises [IndexError] unless
    [0 <= nr <= len]. *)

Definition buffer_index (b : list string) (n : Z) : option nat :=
  let len := Z.of_nat (length b) in
  let n' := if decide (n < 0) then n + len else n in
  if decide (0 ≤ n' < len) then Some (Z.to_nat n') else None.

(** [len(vim.current.buffer)] *)
Definition buffer_len : M Z := gets (λ c, Z.of_nat (length (buffer c))).

(** [vim.current.buffer[n]] *)
Definition buffer_getitem (n : Z) : M string :=
  b <- gets buffer ;;
  match buffer_index b n ≫= (b !!.) with
  | Some l => ret l
  | None => raise IndexError
  end.

(** [vim.current.buffer[n] = l] *)
Definition buffer_setitem (n : Z) (l : string) : M unit :=
  b <- gets buffer ;;
  match buffer_index b n with
  | Some i => modify (set_buffer (<[i := l]> b))
  | None => raise IndexError
  end.

(** [del vim.current.buffer[n]] *)
Definition buffer_delitem (n : Z) : M unit :=
  b <- gets buffer ;;
  match buffer_index b n with
  | Some i => modify (set_buffer (delete i b))
  | None => raise IndexError
  end.

(** [vim.current.buffer.append(l, nr)] *)
Definition buffer_append (l : string) (nr : Z) : M unit :=
  b <- gets buffer ;;
  if decide (0 ≤ nr ≤ Z.of_nat (length b))
  then modify (set_buffer (take (Z.to_nat nr) b ++ l :: drop (Z.to_nat nr) b))
  else raise IndexError.

(** *** VimwikiTask items *)

(** [vimwikitask['line_number']]; subscripting [None] is a [TypeError]. *)
Definition get_line_number (vimwikitask : option ref) : M Z :=
  match vimwikitask with
  | Some r => gets (λ c, line_number (objects c r))
  | None => raise TypeError
  end.

(** [vimwikitask['line_number'] = n], an update of the shared object. *)
Definition set_line_number (vimwikitask : option ref) (n : Z) : M unit :=
  match vimwikitask with
  | Some r =>
      modify (λ c, set_objects
        (λ r', if decide (r' = r)
               then {| line_number := n;
                       add_dependencies := add_dependencies (objects c r) |}
               else objects c r') c)
  | None => raise TypeError
  end.

(** *** tasklib query sets

    [tw.tasks.filter(...)] builds a lazy query; chaining [filter] adds a
    parameter; the connection is contacted once, when the query set is
    iterated. *)

Record TaskQuerySet := { qs_warrior : TaskWarrior; qs_filter : list string }.

(** [tw.tasks.filter()] *)
Definition tasks_filter (tw : TaskWarrior) : TaskQuerySet :=
  {| qs_warrior := tw; qs_filter := [] |}.

(** [tasks.filter(uuid=uuid)] *)
Definition filter_uuid (tasks : TaskQuerySet) (uuid : string) : TaskQuerySet :=
  {| qs_warrior := qs_warrior tasks; qs_filter := qs_filter tasks ++ [uuid] |}.

(** ** class WarriorStore *)

(** [WarriorStore.__getitem__]: a [KeyError] is turned into a
    [TaskWikiException]. *)
Definition WarriorStore_getitem (key : string) : M TaskWarrior :=
  ws <- gets warriors ;;
  match ws !! key with
  | Some tw => ret tw
  | None => raise (TaskWikiException key)
  end.

(** [WarriorStore.values] *)
Definition WarriorStore_values (ws : gmap string TaskWarrior) : list TaskWarrior :=
  (map_to_list ws).*2.

(** ** class TaskCache *)

Section TaskCache.

(** [re.search(regexp.GENERIC_TASK, line)]: [None] when the line does not
    match, else the groups [source] and [uuid], each possibly [None]. *)
Variable GENERIC_TASK : string → option (option string * option string).

(** What a connection answers to a query with the given uuid parameters. *)
Variable export : TaskWarrior → list string → outcome (list Task).

(** [x == key] for the items of the stores. *)
Variable task_eq : option Task → pykey → bool.
Variable object_eq : option ref → pykey → bool.

(** Iterating a query set runs it against its connection. *)
Definition iterate (tasks : TaskQuerySet) : M (list Task) :=
  λ c, (export (qs_warrior tasks) (qs_filter tasks),
        log (Export (qs_warrior tasks) (qs_filter tasks)) c).

(** [x or y] and truthiness of an optional string. *)
Definition truthy (x : option string) : bool :=
  match x with
  | Some s => negb (bool_decide (s = ""))
  | None => false
  end.
Definition py_or (x : option string) (y : string) : string :=
  if truthy x then default y x else y.

(** Item access on the four stores. *)
Definition task_setitem (fuel : nat) (key : pykey) (value : option Task) : M unit :=
  zoom task set_task (NoNoneStore_setitem task_eq fuel key value).
Definition vwtask_getitem (key : pykey) : M (option ref) :=
  zoom vwtask set_vwtask (NoNoneStore_getitem key).
Definition vwtask_setitem (fuel : nat) (key : pykey) (value : option ref) : M unit :=
  zoom vwtask set_vwtask (NoNoneStore_setitem object_eq fuel key value).
Definition vwtask_get (key : pykey) : M (option ref) :=
  zoom vwtask set_vwtask (NoNoneStore_get key).

(** *** vimwikitask_dependency_order *)

(** The test [all([t['line_number'] not in iterated_cache.keys()
    for t in task.add_dependencies])]. *)
Definition ready (h : ref → VimwikiTask) (iterated_cache : gmap pykey ref)
    (task : ref) : bool :=
  forallb (λ t, bool_decide (iterated_cache !! KInt (line_number (h t)) = None))
          (add_dependencies (h task)).

(** One execution of the [for key in list(iterated_cache.keys())] loop:
    the remaining working set, the wrappers yielded, and how it ended. *)
Fixpoint dependency_scan (h : ref → VimwikiTask) (keys : list pykey)
    (iterated_cache : gmap pykey ref) : gmap pykey ref * list ref * outcome unit :=
  match keys with
  | [] => (iterated_cache, [], Ok tt)
  | key :: keys' =>
      match iterated_cache !! key with
      | None => (iterated_cache, [], Raise KeyError)
      | Some task =>
          if ready h iterated_cache task
          then
            let '(ic, ys, r) := dependency_scan h keys' (delete key iterated_cache) in
            (ic, task :: ys, r)
          else dependency_scan h keys' iterated_cache
      end
  end.

(** [list(iterated_cache.keys())] *)
Definition dict_keys {A} (d : gmap pykey A) : list pykey := (map_to_list d).*1.

(** The [while iterated_cache.keys()] loop; [fuel] bounds the number of
    passes.  The result lists the wrappers yielded, pass by pass. *)
Fixpoint dependency_loop (fuel : nat) (h : ref → VimwikiTask)
    (iterated_cache : gmap pykey ref) : list (list ref) * outcome unit :=
  if decide (iterated_cache = ∅) then ([], Ok tt)
  else
    match fuel with
    | O => ([], OutOfFuel)
    | S fuel' =>
        let '(ic, ys, r) :=
          dependency_scan h (dict_keys iterated_cache) iterated_cache in
        match r with
        | Ok _ => let '(yss, r') := dependency_loop fuel' h ic in (ys :: yss, r')
        | _ => ([ys], r)
        end
    end.

(** [{k:v for k,v in self.vwtask.iteritems() if v is not None}] *)
Definition materialized (c : TaskCache) : gmap pykey ref := omap id (vwtask c).

(** The generator [TaskCache.vimwikitask_dependency_order], run to the end
    (or until [fuel] passes have been made).  The wrappers are read as
    they are when the generator starts: its consumer, [save_to_tw], is
    taken not to change line numbers or dependencies between two yields. *)
Definition vimwikitask_dependency_order (fuel : nat) (c : TaskCache)
    : list (list ref) * outcome unit :=
  dependency_loop fuel (objects c) (materialized c).

(** [TaskCache.save_tasks]: [save_to_tw] is called on each wrapper in the
    order in which the generator yields them. *)
Definition save_tasks (fuel : nat) : M unit :=
  λ c, let '(yss, r) := vimwikitask_dependency_order fuel c in
       (r, foldl (λ c' t, log (SaveToTw t) c') c (concat yss)).

(** *** reset *)
Definition reset : M unit :=
  modify (set_task ∅) ;;
  modify (set_vwtask ∅) ;;
  modify (set_viewport ∅) ;;
  modify (set_line ∅).

(** *** load_vwtasks *)
Definition load_vwtasks (authority : bool) : M unit :=
  old_authority <- gets buffer_has_authority ;;
  modify (set_buffer_has_authority authority) ;;
  n <- gets (λ c, length (buffer c)) ;;
  for_ (seq 0 n) (λ i, vwtask_getitem (KInt (Z.of_nat i)) ;; ret tt) ;;
  modify (set_buffer_has_authority old_authority).

(** *** load_tasks *)

(** The first loop: collect [(uuid, tw)] for the lines that name a task. *)
Fixpoint collect_raw_task_info (lines : list string)
    (raw_task_info : list (string * TaskWarrior))
    : M (list (string * TaskWarrior)) :=
  match lines with
  | [] => ret raw_task_info
  | l :: lines' =>
      match GENERIC_TASK l with
      | None => collect_raw_task_info lines' raw_task_info
      | Some (source, uuid) =>
          tw <- WarriorStore_getitem (py_or source "default") ;;
          if truthy uuid
          then collect_raw_task_info lines'
                 (raw_task_info ++ [(default "" uuid, tw)])
          else collect_raw_task_info lines' raw_task_info
      end
  end.

(** [[uuid for uuid, task_tw in raw_task_info if task_tw == tw]] *)
Definition uuids_of (raw_task_info : list (string * TaskWarrior))
    (tw : TaskWarrior) : list string :=
  (filter (λ p, p.2 = tw) raw_task_info).*1.

(** The body of the second loop, for one connection. *)
Definition load_from_warrior (fuel : nat)
    (raw_task_info : list (string * TaskWarrior)) (tw : TaskWarrior) : M unit :=
  let uuids := uuids_of raw_task_info tw in
  match uuids with
  | [] => ret tt
  | _ =>
      tasks <- iterate (foldl filter_uuid (tasks_filter tw) uuids) ;;
      for_ tasks (λ t,
        task_setitem fuel (KShortUUID (task_uuid t) tw) (Some t))
  end.

Definition load_tasks (fuel : nat) : M unit :=
  lines <- gets buffer ;;
  raw_task_info <- collect_raw_task_info lines [] ;;
  ws <- gets (λ c, WarriorStore_values (warriors c)) ;;
  for_ ws (load_from_warrior fuel raw_task_info).

(** *** rebuild_vimwikitask_cache, insert_line, remove_line

    All three read [self.vimwikitask_cache].  [TaskCache.__init__] binds
    [task], [vwtask], [viewport], [line], [warriors] and
    [buffer_has_authority]; no statement of the module binds
    [vimwikitask_cache], and the class defines no [__getattr__]. *)

Definition self_vimwikitask_cache : M (gmap pykey (option ref)) :=
  missing_attribute "vimwikitask_cache".

Fixpoint rebuild_loop (values : list (option ref))
    (new_cache : gmap pykey (option ref)) : M (gmap pykey (option ref)) :=
  match values with
  | [] => ret new_cache
  | vimwikitask :: values' =>
      n <- get_line_number vimwikitask ;;
      rebuild_loop values' (<[KInt n := vimwikitask]> new_cache)
  end.

Definition rebuild_vimwikitask_cache : M unit :=
  vimwikitask_cache <- self_vimwikitask_cache ;;
  new_cache <- rebuild_loop (NoNoneStore_values vimwikitask_cache) ∅ ;;
  modify (set_vwtask new_cache).

Definition insert_line (l : string) (position : Z) : M unit :=
  buffer_append l position ;;
  vimwikitask_cache <- self_vimwikitask_cache ;;
  for_ (NoNoneStore_values vimwikitask_cache) (λ vimwikitask,
    n <- get_line_number vimwikitask ;;
    if decide (n >= position) then set_line_number vimwikitask (n + 1)
    else ret tt) ;;
  rebuild_vimwikitask_cache.

Definition remove_line (position : Z) : M unit :=
  buffer_delitem position ;;
  vimwikitask_cache <- self_vimwikitask_cache ;;
  match vimwikitask_cache !! KInt position with
  | None => raise KeyError
  | Some _ => ret tt
  end ;;
  vimwikitask_cache <- self_vimwikitask_cache ;;
  for_ (NoNoneStore_values vimwikitask_cache) (λ vimwikitask,
    n <- get_line_number vimwikitask ;;
    if decide (n > position) then set_line_number vimwikitask (n - 1)
    else ret tt) ;;
  rebuild_vimwikitask_cache.

(** *** swap_lines *)
Definition swap_lines (fuel : nat) (position1 position2 : Z) : M unit :=
  buffer_size <- buffer_len ;;
  if decide (position1 >= buffer_size ∨ position2 >= buffer_size)
  then raise (ValueError "Tring to swap")
  else
    temp <- buffer_getitem position2 ;;
    l1 <- buffer_getitem position1 ;;
    buffer_setitem position2 l1 ;;
    buffer_setitem position1 temp ;;
    temp <- vwtask_getitem (KInt position2) ;;
    v1 <- vwtask_get (KInt position1) ;;
    vwtask_setitem fuel (KInt position2) v1 ;;
    vwtask_setitem fuel (KInt position1) temp ;;
    for_ [position1; position2] (λ position,
      v <- vwtask_getitem (KInt position) ;;
      match v with
      | Some _ =>
          v' <- vwtask_getitem (KInt position) ;;
          set_line_number v' position
      | None => ret tt
      end).

End TaskCache.

(** ** The three line operations as commands *)

Inductive line_op :=
  | InsertLine (l : string) (position : Z)
  | RemoveLine (position : Z)
  | SwapLines (position1 position2 : Z).

Definition run_op (object_eq : option ref → pykey → bool) (fuel : nat)
    (op : line_op) : M unit :=
  match op with
  | InsertLine l position => insert_line l position
  | RemoveLine position => remove_line position
  | SwapLines position1 position2 => swap_lines object_eq fuel position1 position2
  end.

(** A sequence of calls; a call that raises returns control to the caller
    and the next call runs on the state it left behind. *)
Definition run_ops (object_eq : option ref → pykey → bool) (fuel : nat)
    (ops : list line_op) (c : TaskCache) : TaskCache :=
  foldl (λ c' op, (run_op object_eq fuel op c').2) c ops.

(** ** Properties of states *)

(** Every wrapper in the position cache is stored under its own
    [line_number], and no two wrappers of the cache share a line number. *)
Definition position_invariant (c : TaskCache) : Prop :=
  (∀ key r, vwtask c !! key = Some (Some r) →
            key = KInt (line_number (objects c r))) ∧
  (∀ key1 key2 r1 r2,
     vwtask c !! key1 = Some (Some r1) → vwtask c !! key2 = Some (Some r2) →
     line_number (objects c r1) = line_number (objects c r2) → r1 = r2).

(** [r] is one of the wrappers of the working set. *)
Definition is_materialized (c : TaskCache) (r : ref) : Prop :=
  ∃ key, materialized c !! key = Some r.

(** [w] lists [t] in its [add_dependencies], both being materialized. *)
Definition listed (c : TaskCache) (w t : ref) : Prop :=
  is_materialized c w ∧ is_materialized c t ∧
  t ∈ add_dependencies (objects c w).


Definition dependency_cycle (c : TaskCache) : Prop := ∃ w, tc (listed c) w w.

(** The dependency test as the generator performs it, on line numbers:
    the wrapper stored under [k] lists a wrapper whose [line_number] is a
    key of the working set. *)
Definition waits_for (h : ref → VimwikiTask) (ic : gmap pykey ref)
    (k k' : pykey) : Prop :=
  ∃ w t, ic !! k = Some w ∧ t ∈ add_dependencies (h w) ∧
         k' = KInt (line_number (h t)) ∧ is_Some (ic !! k').

(** A sequence of yields each of which passes the test when it is made. *)
Inductive yields_from (h : ref → VimwikiTask)
    : gmap pykey ref → list ref → gmap pykey ref → Prop :=
  | yields_nil ic : yields_from h ic [] ic
  | yields_cons ic key w ys ic' :
      ic !! key = Some w → ready h ic w = true →
      yields_from h (delete key ic) ys ic' →
      yields_from h ic (w :: ys) ic'.

(** A line among [lines] names uuid [u] in connection [tw]. *)
Definition names
    (GENERIC_TASK : string → option (option string * option string))
    (lines : list string) (c : TaskCache) (u : string) (tw : TaskWarrior) : Prop :=
  ∃ l source, l ∈ lines ∧ GENERIC_TASK l = Some (source, Some u) ∧
              u ≠ "" ∧ warriors c !! py_or source "default" = Some tw.

(** A line of the buffer names uuid [u] in connection [tw]. *)
Definition references
    (GENERIC_TASK : string → option (option string * option string))
    (c : TaskCache) (u : string) (tw : TaskWarrior) : Prop :=
  names GENERIC_TASK (buffer c) c u tw.

(** Positions of a document of [n] lines. *)
Definition valid_position (n : nat) (position : Z) : Prop :=
  0 ≤ position < Z.of_nat n.


(** ** Sample states *)

Definition never_equal {A} (x : option A) (key : pykey) : bool := false.

Definition no_task : VimwikiTask := {| line_number := -1; add_dependencies := [] |}.

(** Three lines, each with its wrapper; the wrapper of line 2 depends on
    the wrapper of line 1. *)
Definition three_objects (r : ref) : VimwikiTask :=
  match r with
  | 10%nat => {| line_number := 0; add_dependencies := [] |}
  | 11%nat => {| line_number := 1; add_dependencies := [] |}
  | 12%nat => {| line_number := 2; add_dependencies := [11%nat] |}
  | _ => no_task
  end.

Definition three_lines : TaskCache :=
  {| buffer := ["* [ ] zero"; "* [ ] one"; "* [ ] two"];
     objects := three_objects;
     task := ∅;
     vwtask := {[ KInt 0 := Some 10%nat; KInt 1 := Some 11%nat;
                  KInt 2 := Some 12%nat ]};
     viewport := ∅; line := ∅;
     warriors := {[ "default" := 0%nat ]};
     buffer_has_authority := true;
     trace := [] |}.

(** Two wrappers that depend on each other. *)
Definition cyclic_objects (r : ref) : VimwikiTask :=
  match r with
  | 10%nat => {| line_number := 0; add_dependencies := [11%nat] |}
  | 11%nat => {| line_number := 1; add_dependencies := [10%nat] |}
  | _ => no_task
  end.

Definition two_cyclic : TaskCache :=
  {| buffer := ["* [ ] a"; "* [ ] b"];
     objects := cyclic_objects;
     task := ∅;
     vwtask := {[ KInt 0 := Some 10%nat; KInt 1 := Some 11%nat ]};
     viewport := ∅; line := ∅;
     warriors := {[ "default" := 0%nat ]};
     buffer_has_authority := true;
     trace := [] |}.

(** A fresh cache over a one-line document. *)
Definition one_line : TaskCache :=
  {| buffer := ["plain text"];
     objects := λ _, no_task;
     task := ∅; vwtask := ∅; viewport := ∅; line := ∅;
     warriors := {[ "default" := 0%nat ]};
     buffer_has_authority := true;
     trace := [] |}.



(** A wrapper on line 0 that lists a wrapper of line 5, which the
    position cache does not hold. *)
Definition dangling_objects (r : ref) : VimwikiTask :=
  match r with
  | 10%nat => {| line_number := 0; add_dependencies := [20%nat] |}
  | 20%nat => {| line_number := 5; add_dependencies := [] |}
  | _ => no_task
  end.

Definition one_dangling : TaskCache :=
  {| buffer := ["* [ ] a"];
     objects := dangling_objects;
     task := ∅;
     vwtask := {[ KInt 0 := Some 10%nat ]};
     viewport := ∅; line := ∅;
     warriors := {[ "default" := 0%nat ]};
     buffer_has_authority := true;
     trace := [] |}.

(** The identity cache after [self.task[ShortUUID(task['uuid'], tw)] = task]
    for each task of a query result. *)
Definition store_tasks (tw : TaskWarrior) (tasks : list Task)
    (d : gmap pykey (option Task)) : gmap pykey (option Task) :=
  foldl (λ d' t, <[KShortUUID (task_uuid t) tw := Some t]> d') d tasks.

(** A sample parser: a line [#u] names uuid [u] in the default store. *)
Definition sample_GENERIC_TASK (l : string)
    : option (option string * option string) :=
  match l with
  | String "#"%char u => Some (None, Some u)
  | _ => None
  end.

(** A sample connection that knows every uuid it is asked for. *)
Definition sample_export (tw : TaskWarrior) (filters : list string)
    : outcome (list Task) :=
  Ok ((λ u, {| task_uuid := u; task_description := "task" |}) <$> filters).

Definition two_tasks : TaskCache :=
  {| buffer := ["#aa"; "notes"; "#bb"];
     objects := λ _, no_task;
     task := ∅; vwtask := ∅; viewport := ∅; line := ∅;
     warriors := {[ "default" := 0%nat; "work" := 1%nat ]};
     buffer_has_authority := true;
     trace := [] |}.

(** ** Further methods of the module *)

(** [WarriorStore.__setitem__] *)
Definition set_warriors (ws : gmap string TaskWarrior) (c : TaskCache) : TaskCache :=
  {| buffer := buffer c; objects := objects c; task := task c; vwtask := vwtask c;
     viewport := viewport c; line := line c; warriors := ws;
     buffer_has_authority := buffer_has_authority c; trace := trace c |}.
Definition WarriorStore_setitem (key : string) (value : TaskWarrior) : M unit :=
  modify (λ c, set_warriors (<[key := value]> (warriors c)) c).

(** *** WarriorStore.__init__

    [vim.vars] as the constructor reads it, and the [TaskWarrior] objects
    it builds: the keyword arguments each was built with and its
    [overrides] dictionary.  The constructor [TaskWarrior] belongs to tasklib:
    [construct] gives the overrides of the new object, or raises. *)

Record VimVars := {
  taskwiki_taskrc_location : option string;
  taskwiki_data_location : option string;
  taskwiki_extra_warriors : option (gmap string (gmap string string))
}.

Record TaskWarriorObject := {
  tw_kwargs : gmap string string;
  tw_overrides : gmap string string
}.

Definition new_TaskWarrior
    (construct : gmap string string → outcome (gmap string string))
    (kwargs : gmap string string) : outcome TaskWarriorObject :=
  match construct kwargs with
  | Ok overrides => Ok {| tw_kwargs := kwargs; tw_overrides := overrides |}
  | Raise e => Raise e
  | OutOfFuel => OutOfFuel
  end.

(** [default_kwargs] *)
Definition default_kwargs (vars : VimVars) : gmap string string :=
  {[ "data_location" := py_or (taskwiki_data_location vars) "~/.task";
     "taskrc_location" := py_or (taskwiki_taskrc_location vars) "~/.taskrc" ]}.

(** The loop over [extra_warrior_defs.keys()]: [copy()] then [update()],
    so the settings of the definition win over the defaults. *)
Fixpoint add_extra_warriors
    (construct : gmap string string → outcome (gmap string string))
    (defaults : gmap string string)
    (defs : list (string * gmap string string))
    (ws : gmap string TaskWarriorObject) : outcome (gmap string TaskWarriorObject) :=
  match defs with
  | [] => Ok ws
  | (key, def) :: defs' =>
      match new_TaskWarrior construct (def ∪ defaults) with
      | Ok tw => add_extra_warriors construct defaults defs' (<[key := tw]> ws)
      | Raise e => Raise e
      | OutOfFuel => OutOfFuel
      end
  end.

(** [tw.overrides.update({'context':''})] *)
Definition ignore_context (tw : TaskWarriorObject) : TaskWarriorObject :=
  {| tw_kwargs := tw_kwargs tw;
     tw_overrides := <["context" := ""]> (tw_overrides tw) |}.

Definition WarriorStore_init
    (construct : gmap string string → outcome (gmap string string))
    (vars : VimVars) : outcome (gmap string TaskWarriorObject) :=
  match new_TaskWarrior construct (default_kwargs vars) with
  | Ok tw =>
      let extra_warrior_defs := default ∅ (taskwiki_extra_warriors vars) in
      match add_extra_warriors construct (default_kwargs vars)
              (map_to_list extra_warrior_defs) {[ "default" := tw ]} with
      | Ok ws => Ok (ignore_context <$> ws)
      | Raise e => Raise e
      | OutOfFuel => OutOfFuel
      end
  | Raise e => Raise e
  | OutOfFuel => OutOfFuel
  end.

(** *** get_viewport_by_task

    [task in port.viewport_tasks] is a test on a [ViewPort] object,
    given by [port_contains]; a [None] among the values has no
    [viewport_tasks].  Falling off the loop returns [None]. *)
Fixpoint first_port_with (contains : ref → bool) (ports : list (option ref))
    : outcome (option ref) :=
  match ports with
  | [] => Ok None
  | None :: _ => Raise (AttributeError "viewport_tasks")
  | Some port :: ports' =>
      if contains port then Ok (Some port) else first_port_with contains ports'
  end.

Definition get_viewport_by_task (port_contains : Task → ref → bool)
    (t : Task) : M (option ref) :=
  λ c, (first_port_with (port_contains t) (NoNoneStore_values (viewport c)), c).

(** ** Further properties of states *)

(** A store holds no [None]. *)
Definition no_none {V} (d : gmap pykey (option V)) : Prop :=
  ∀ key, d !! key ≠ Some None.

Definition stores_hold_no_none (c : TaskCache) : Prop :=
  no_none (task c) ∧ no_none (vwtask c) ∧ no_none (viewport c) ∧
  no_none (line c).

(** Two states that differ at most in the identity cache and the trace. *)
Definition same_but_tasks (c c' : TaskCache) : Prop :=
  buffer c' = buffer c ∧ objects c' = objects c ∧ vwtask c' = vwtask c ∧
  viewport c' = viewport c ∧ line c' = line c ∧ warriors c' = warriors c ∧
  buffer_has_authority c' = buffer_has_authority c.

(** The identity cache after the second loop of [load_tasks]. *)
Fixpoint loaded (export : TaskWarrior → list string → outcome (list Task))
    (raw_task_info : list (string * TaskWarrior)) (ws : list TaskWarrior)
    (d : gmap pykey (option Task)) : gmap pykey (option Task) :=
  match ws with
  | [] => d
  | tw :: ws' =>
      match uuids_of raw_task_info tw with
      | [] => loaded export raw_task_info ws' d
      | _ =>
          match export tw (uuids_of raw_task_info tw) with
          | Ok tasks => loaded export raw_task_info ws' (store_tasks tw tasks d)
          | _ => d
          end
      end
  end.

(** The key under which each wrapper of the working set waits, directly
    or through other wrappers, for a key on a cycle. *)
Definition waits_for_cycle (h : ref → VimwikiTask) (ic : gmap pykey ref)
    (k : pykey) : Prop :=
  ∃ k', rtc (waits_for h ic) k k' ∧ tc (waits_for h ic) k' k'.

(** The working set after [n] passes of the [while] loop. *)
Fixpoint after_passes (n : nat) (h : ref → VimwikiTask)
    (ic : gmap pykey ref) : gmap pykey ref :=
  match n with
  | O => ic
  | S n' =>
      (dependency_scan h (dict_keys (after_passes n' h ic))
         (after_passes n' h ic)).1.1
  end.

(** Sample values. *)
Definition sample_vars : VimVars :=
  {| taskwiki_taskrc_location := None;
     taskwiki_data_location := Some "";
     taskwiki_extra_warriors :=
       Some {[ "work" := {[ "data_location" := "~/work/.task" ]} ]} |}.

Definition sample_construct (kwargs : gmap string string)
    : outcome (gmap string string) :=
  Ok {[ "confirmation" := "no" ]}.

(** A connection that cannot be reached. *)
Definition failing_export (tw : TaskWarrior) (filters : list string)
    : outcome (list Task) :=
  Raise TaskWarriorException.

Definition sample_warriors : gmap string TaskWarriorObject :=
  match WarriorStore_init sample_construct sample_vars with
  | Ok ws => ws
  | _ => ∅
  end.

Definition sample_ports : TaskCache :=
  {| buffer := ["== Pending | +PENDING"];
     objects := λ _, no_task;
     task := ∅; vwtask := ∅;
     viewport := {[ KInt 0 := Some 30%nat ]};
     line := ∅;
     warriors := {[ "default" := 0%nat ]};
     buffer_has_authority := true;
     trace := [] |}.

Definition sample_port_contains (t : Task) (port : ref) : bool :=
  bool_decide (task_uuid t = "aa").

(** A document with a line that names a store which is not configured. *)
Definition unknown_store_GENERIC_TASK (l : string)
    : option (option string * option string) :=
  match l with
  | String "#"%char u => Some (None, Some u)
  | String "@"%char s => Some (Some s, None)
  | _ => None
  end.

Definition unknown_store : TaskCache :=
  {| buffer := ["#aa"; "@home"; "#bb"];
     objects := λ _, no_task;
     task := ∅; vwtask := ∅; viewport := ∅; line := ∅;
     warriors := {[ "default" := 0%nat ]};
     buffer_has_authority := true;
     trace := [] |}.

(** A wrapper on line 2 that waits for the two wrappers of a cycle. *)
Definition behind_cycle_objects (r : ref) : VimwikiTask :=
  match r with
  | 10%nat => {| line_number := 0; add_dependencies := [11%nat] |}
  | 11%nat => {| line_number := 1; add_dependencies := [10%nat] |}
  | 12%nat => {| line_number := 2; add_dependencies := [11%nat] |}
  | 13%nat => {| line_number := 3; add_dependencies := [] |}
  | _ => no_task
  end.

Definition behind_cycle : TaskCache :=
  {| buffer := ["* [ ] a"; "* [ ] b"; "* [ ] c"; "* [ ] d"];
     objects := behind_cycle_objects;
     task := ∅;
     vwtask := {[ KInt 0 := Some 10%nat; KInt 1 := Some 11%nat;
                  KInt 2 := Some 12%nat; KInt 3 := Some 13%nat ]};
     viewport := ∅; line := ∅;
     warriors := {[ "default" := 0%nat ]};
     buffer_has_authority := true;
     trace := [] |}.

(** * Properties *)

(** The names and attributes that the methods below fail to find. *)
Example names_not_bound :
  ("get_method" ∉ module_globals) ∧ ("vimwikitask" ∉ module_globals) ∧
  ("vimwikitask_cache" ∉ TaskCache_attributes) ∧
  ("get" ∉ NoNoneStore_attributes) ∧ ("__delitem__" ∉ NoNoneStore_attributes) ∧
  ("__contains__" ∉ NoNoneStore_attributes) ∧
  ("__iter__" ∉ NoNoneStore_attributes).
Proof. repeat split; by apply (bool_decide_unpack _). Qed.

(** ** NoNoneStore *)

Section NoNoneStore_facts.
Context {V : Type} (py_eq : option V → pykey → bool).
Implicit Types (d : gmap pykey (option V)) (key : pykey).

(** A lookup never gets past the two unbound names. *)
Lemma getitem_raises key d :
  NoNoneStore_getitem key d =
    (Raise (NameError (name_reached (dict_get d key))), d).
Proof.
  unfold NoNoneStore_getitem, bind, gets, unbound_name, raise, ret.
  by destruct (dict_get d key).
Qed.

Lemma contains_raises fuel i key d :
  NoNoneStore_contains py_eq (S fuel) i key d =
    (Raise (NameError (name_reached (dict_get d (KInt i)))), d).
Proof. simpl. rewrite getitem_raises. by destruct (dict_get d (KInt i)). Qed.

(** Assigning [None] raises and leaves the store as it was. *)
Lemma setitem_none_raises fuel key d :
  NoNoneStore_setitem py_eq (S fuel) key None d =
    (Raise (NameError (name_reached (dict_get d (KInt 0)))), d).
Proof.
  unfold NoNoneStore_setitem, bind. rewrite contains_raises.
  by destruct (dict_get d (KInt 0)).
Qed.

Lemma setitem_some fuel key v d :
  NoNoneStore_setitem py_eq fuel key (Some v) d = (Ok tt, <[key := Some v]> d).
Proof. done. Qed.

End NoNoneStore_facts.

(** C6.  In the position cache of [three_lines], [self.vwtask[1] = None]
    raises [NameError] and deletes nothing: the cache is unchanged and
    line 1 still holds its wrapper. *)
Theorem setitem_none_keeps_key :
  vwtask_setitem never_equal 1 (KInt 1) None three_lines
    = (Raise (NameError "vimwikitask"), three_lines) ∧
  vwtask three_lines !! KInt 1 = Some (Some 11%nat).
Proof. split; reflexivity. Qed.




(** ** The position cache never gets past a lookup *)

Ltac step_st :=
  unfold bind, gets, modify, raise, ret, zoom, unbound_name,
    missing_attribute; simpl.

Lemma set_vwtask_same c : set_vwtask (vwtask c) c = c.
Proof. by destruct c. Qed.

Lemma vwtask_getitem_raises key c :
  vwtask_getitem key c =
    (Raise (NameError (name_reached (dict_get (vwtask c) key))), c).
Proof.
  unfold vwtask_getitem, zoom. rewrite getitem_raises.
  by rewrite set_vwtask_same.
Qed.

Lemma load_vwtasks_raises authority c :
  buffer c ≠ [] →
  load_vwtasks authority c =
    (Raise (NameError (name_reached (dict_get (vwtask c) (KInt 0)))),
     set_buffer_has_authority authority c).
Proof.
  intros Hb. unfold load_vwtasks. step_st.
  destruct (buffer c) as [|l b]; [done|]. simpl.
  unfold bind at 1. by rewrite vwtask_getitem_raises.
Qed.

(** C5.  On a one-line document whose flag is [True],
    [load_vwtasks(False)] raises at the first line and returns with the
    flag still [False]: the flag is not restored on the error path. *)
Theorem load_vwtasks_flag_not_restored :
  load_vwtasks false one_line
    = (Raise (NameError "get_method"), set_buffer_has_authority false one_line) ∧
  buffer_has_authority one_line = true ∧
  buffer_has_authority (load_vwtasks false one_line).2 = false.
Proof. repeat split; reflexivity. Qed.

(** C8.  [swap_lines(1, 2)] on the three-line document exchanges the two
    lines of the buffer and then raises at [self.vwtask[position2]]: the
    position cache and the wrappers are as before, so lines 1 and 2 keep
    the wrappers (and the line numbers) of the texts that moved away. *)
Theorem swap_lines_cache_not_swapped :
  swap_lines never_equal 1 1 2 three_lines
    = (Raise (NameError "vimwikitask"),
       set_buffer ["* [ ] zero"; "* [ ] two"; "* [ ] one"] three_lines) ∧
  vwtask (swap_lines never_equal 1 1 2 three_lines).2 !! KInt 1 = Some (Some 11%nat) ∧
  vwtask (swap_lines never_equal 1 1 2 three_lines).2 !! KInt 2 = Some (Some 12%nat) ∧
  line_number (objects (swap_lines never_equal 1 1 2 three_lines).2 11%nat) = 1 ∧
  line_number (objects (swap_lines never_equal 1 1 2 three_lines).2 12%nat) = 2.
Proof. repeat split; reflexivity. Qed.

(** ** Positions *)






(** ** The position invariant *)

(** None of the three operations reaches a statement that writes to the
    position cache or to a wrapper. *)
Lemma run_op_cache_frame object_eq fuel op c :
  vwtask (run_op object_eq fuel op c).2 = vwtask c ∧
  objects (run_op object_eq fuel op c).2 = objects c.
Proof.
  destruct op as [l p|p|p1 p2]; simpl.
  - unfold insert_line, buffer_append, self_vimwikitask_cache. step_st.
    by case_decide.
  - unfold remove_line, buffer_delitem, self_vimwikitask_cache. step_st.
    by destruct (buffer_index _ _).
  - unfold swap_lines, buffer_len, buffer_getitem, buffer_setitem. step_st.
    case_decide; [done|].
    destruct (buffer_index (buffer c) p2 ≫= _) as [l2|]; [|done].
    destruct (buffer_index (buffer c) p1 ≫= _) as [l1|]; [|done].
    destruct (buffer_index (buffer c) p2) as [i2|]; [|done]. simpl.
    destruct (buffer_index _ p1) as [i1|]; [|done]. simpl.
    unfold bind. rewrite vwtask_getitem_raises. done.
Qed.

Lemma position_invariant_frame c c' :
  vwtask c' = vwtask c → objects c' = objects c →
  position_invariant c → position_invariant c'.
Proof. unfold position_invariant. by intros -> ->. Qed.

(** C2.  Each call of [insert_line], [remove_line] or [swap_lines], and so
    each finite sequence of such calls, leaves every wrapper of the
    position cache stored under its own [line_number], with no two
    wrappers of the cache on one line number. *)
Theorem position_invariant_preserved object_eq fuel c :
  position_invariant c →
  (∀ op, position_invariant (run_op object_eq fuel op c).2) ∧
  (∀ ops, position_invariant (run_ops object_eq fuel ops c)).
Proof.
  intros Hc.
  assert (Hop : ∀ c0 op, position_invariant c0 →
                  position_invariant (run_op object_eq fuel op c0).2).
  { intros c0 op H0.
    destruct (run_op_cache_frame object_eq fuel op c0) as [Hv Ho].
    by eapply position_invariant_frame. }
  split; [by auto|].
  intros ops. revert c Hc. unfold run_ops.
  induction ops as [|op ops IH]; intros c Hc; simpl; [done|].
  apply IH, Hop, Hc.
Qed.

Lemma three_lines_lookup key r :
  vwtask three_lines !! key = Some (Some r) →
  (key = KInt 0 ∧ r = 10%nat) ∨ (key = KInt 1 ∧ r = 11%nat) ∨
  (key = KInt 2 ∧ r = 12%nat).
Proof.
  unfold three_lines. simpl. intros H.
  apply lookup_insert_Some in H as [[<- H]|[_ H]]; [by simplify_eq; auto|].
  apply lookup_insert_Some in H as [[<- H]|[_ H]]; [by simplify_eq; auto|].
  apply lookup_singleton_Some in H as [<- H]. by simplify_eq; auto.
Qed.

Lemma three_lines_position_invariant : position_invariant three_lines.
Proof.
  split.
  - intros key r H.
    by destruct (three_lines_lookup _ _ H) as [[-> ->]|[[-> ->]|[-> ->]]].
  - intros k1 k2 r1 r2 H1 H2.
    destruct (three_lines_lookup _ _ H1) as [[-> ->]|[[-> ->]|[-> ->]]];
      destruct (three_lines_lookup _ _ H2) as [[-> ->]|[[-> ->]|[-> ->]]];
      simpl; intros; done.
Qed.

Lemma position_invariant_preserved_witness :
  (∀ op, position_invariant (run_op never_equal 1 op three_lines).2) ∧
  (∀ ops, position_invariant (run_ops never_equal 1 ops three_lines)).
Proof.
  apply (position_invariant_preserved never_equal 1 three_lines).
  exact three_lines_position_invariant.
Defined.

(** ** The save order *)

Section dependency_order.
Variable h : ref → VimwikiTask.
Implicit Types (ic : gmap pykey ref) (k key : pykey) (w t : ref).

Lemma ready_true ic w :
  ready h ic w = true ↔
  ∀ t, t ∈ add_dependencies (h w) → ic !! KInt (line_number (h t)) = None.
Proof.
  unfold ready. rewrite forallb_forall. split.
  - intros H t Ht. apply list_elem_of_In, H in Ht.
    by apply bool_decide_eq_true in Ht.
  - intros H t Ht. apply bool_decide_eq_true, H. by apply list_elem_of_In.
Qed.

Lemma ready_false ic w :
  ready h ic w = false →
  ∃ t, t ∈ add_dependencies (h w) ∧ is_Some (ic !! KInt (line_number (h t))).
Proof.
  unfold ready. induction (add_dependencies (h w)) as [|t ts IH]; simpl; [done|].
  intros H. apply andb_false_iff in H as [H|H].
  - exists t. split; [left|].
    apply bool_decide_eq_false in H.
    by destruct (ic !! KInt (line_number (h t))).
  - destruct (IH H) as (t' & Ht' & Hs). exists t'. split; [by right|done].
Qed.

Lemma ready_subseteq ic ic' w :
  ic' ⊆ ic → ready h ic w = true → ready h ic' w = true.
Proof.
  rewrite !ready_true. intros Hsub H t Ht.
  eapply lookup_weaken_None; [by apply H|done].
Qed.

Lemma yields_from_app ic1 ic2 ic3 xs ys :
  yields_from h ic1 xs ic2 → yields_from h ic2 ys ic3 →
  yields_from h ic1 (xs ++ ys) ic3.
Proof.
  induction 1 as [|ic key w xs ic' Hk Hr Hy IH]; simpl; [done|].
  intros H. eapply yields_cons; eauto.
Qed.

Lemma yields_from_subseteq ic ys ic' : yields_from h ic ys ic' → ic' ⊆ ic.
Proof.
  induction 1 as [|ic key w xs ic' Hk Hr Hy IH]; [done|].
  etrans; [done|]. apply delete_subseteq.
Qed.

(** A key that has left the working set was yielded. *)
Lemma yields_from_removed ic ys ic' k w :
  yields_from h ic ys ic' → ic !! k = Some w → ic' !! k = None → w ∈ ys.
Proof.
  induction 1 as [|ic key w' xs ic' Hk Hr Hy IH]; intros Hw Hn.
  - congruence.
  - destruct (decide (k = key)) as [->|Hne].
    + simplify_eq. left.
    + right. apply IH; [by rewrite lookup_delete_ne|done].
Qed.

(** What is yielded are the values of the keys that left. *)
Lemma yields_from_values ic ys ic' :
  yields_from h ic ys ic' →
  (map_to_list ic).*2 ≡ₚ ys ++ (map_to_list ic').*2.
Proof.
  induction 1 as [|ic key w xs ic' Hk Hr Hy IH]; [done|].
  rewrite <- (map_to_list_delete ic key w Hk). simpl. by rewrite IH.
Qed.

Lemma yields_from_split ic xs w ys ic' :
  yields_from h ic (xs ++ w :: ys) ic' →
  ∃ ic1 key, yields_from h ic xs ic1 ∧ ic1 !! key = Some w ∧
             ready h ic1 w = true.
Proof.
  revert ic. induction xs as [|x xs IH]; simpl; intros ic H.
  - inversion H; subst. eexists _, _. split; [constructor|done].
  - inversion H as [|? key w' ? ? Hk Hr Hy]; subst.
    destruct (IH _ Hy) as (ic1 & key' & Hxs & Hk' & Hr').
    exists ic1, key'. split; [|done]. by eapply yields_cons.
Qed.

(** One pass over distinct keys of the working set: it ends normally,
    its yields pass the test, keys outside are untouched, and every key
    that passes the test at the start of the pass is yielded. *)
Lemma dependency_scan_spec keys ic :
  NoDup keys → (∀ k, k ∈ keys → is_Some (ic !! k)) →
  ∃ ic' ys,
    dependency_scan h keys ic = (ic', ys, Ok tt) ∧
    yields_from h ic ys ic' ∧
    (∀ k w, k ∈ keys → ic !! k = Some w → ready h ic w = true →
            ic' !! k = None ∧ w ∈ ys).
Proof.
  revert ic. induction keys as [|key keys IH]; intros ic Hnd Hin; simpl.
  - exists ic, []. split; [done|]. split; [constructor|].
    intros k w Hk. by apply elem_of_nil in Hk.
  - apply NoDup_cons in Hnd as [Hnotin Hnd].
    destruct (Hin key) as [task Htask]; [left|]. rewrite Htask.
    destruct (ready h ic task) eqn:Hready.
    + destruct (IH (delete key ic) Hnd) as (ic' & ys & Heq & Hy & Hall).
      { intros k Hk. rewrite lookup_delete_ne; [apply Hin; by right|].
        intros ->. done. }
      rewrite Heq. exists ic', (task :: ys). split; [done|].
      split; [by eapply yields_cons|].
      intros k w Hk Hw Hr. apply elem_of_cons in Hk as [->|Hk].
      * simplify_eq. split; [|left].
        eapply lookup_weaken_None; [apply lookup_delete_eq|].
        by eapply yields_from_subseteq.
      * assert (k ≠ key) by (intros ->; done).
        destruct (Hall k w Hk) as [Hn Hel].
        { by rewrite lookup_delete_ne. }
        { eapply ready_subseteq; [apply delete_subseteq|done]. }
        split; [done|by right].
    + destruct (IH ic Hnd) as (ic' & ys & Heq & Hy & Hall).
      { intros k Hk. apply Hin. by right. }
      rewrite Heq. exists ic', ys. split; [done|]. split; [done|].
      intros k w Hk Hw Hr. apply elem_of_cons in Hk as [->|Hk].
      * rewrite Htask in Hw. injection Hw as <-. congruence.
      * by apply Hall.
Qed.

Lemma dict_keys_spec ic :
  NoDup (dict_keys ic) ∧ ∀ k, k ∈ dict_keys ic ↔ is_Some (ic !! k).
Proof.
  split; [apply NoDup_fst_map_to_list|].
  intros k. unfold dict_keys. rewrite list_elem_of_fmap. split.
  - intros ([k' w] & -> & H). apply elem_of_map_to_list in H. by eexists.
  - intros [w H]. exists (k, w). split; [done|]. by apply elem_of_map_to_list.
Qed.

(** A full pass, as the [while] loop runs it. *)
Lemma full_pass_spec ic :
  ∃ ic' ys,
    dependency_scan h (dict_keys ic) ic = (ic', ys, Ok tt) ∧
    yields_from h ic ys ic' ∧
    (∀ k w, ic !! k = Some w → ready h ic w = true →
            ic' !! k = None ∧ w ∈ ys).
Proof.
  destruct (dict_keys_spec ic) as [Hnd Hin].
  destruct (dependency_scan_spec (dict_keys ic) ic Hnd) as (ic' & ys & Heq & Hy & Hall).
  { intros k Hk. by apply Hin. }
  exists ic', ys. split; [done|]. split; [done|].
  intros k w Hw Hr. apply Hall; [|done|done]. apply Hin. by eexists.
Qed.

(** The generator raises nothing. *)
Lemma dependency_loop_no_raise fuel ic e :
  (dependency_loop fuel h ic).2 ≠ Raise e.
Proof.
  revert ic. induction fuel as [|fuel IH]; intros ic; simpl.
  - by case_decide.
  - case_decide; [done|].
    destruct (full_pass_spec ic) as (ic' & ys & -> & _).
    specialize (IH ic'). by destruct (dependency_loop fuel h ic').
Qed.


End dependency_order.

Section termination.
Variable h : ref → VimwikiTask.
Implicit Types (ic : gmap pykey ref) (k key : pykey) (w t : ref).

Lemma waits_for_subseteq ic ic' k k' :
  ic' ⊆ ic → waits_for h ic' k k' → waits_for h ic k k'.
Proof.
  intros Hsub (w & t & Hw & Ht & -> & [x Hx]).
  exists w, t. repeat split; try done.
  - by eapply lookup_weaken.
  - exists x. by eapply lookup_weaken.
Qed.

Lemma waits_for_acyclic_subseteq ic ic' :
  ic' ⊆ ic → (∀ k, ¬ tc (waits_for h ic) k k) → ∀ k, ¬ tc (waits_for h ic') k k.
Proof.
  intros Hsub Hac k Hk. apply (Hac k).
  eapply (tc_congruence id); [|exact Hk].
  intros x y. by apply waits_for_subseteq.
Qed.

(** Following the edges from [k] without a cycle ends, after at most as
    many steps as there are keys, at a key whose wrapper passes the test. *)
Lemma walk_to_ready ic (n : nat) (visited : gset pykey) k :
  (∀ k, ¬ tc (waits_for h ic) k k) →
  (size (dom ic ∖ visited) ≤ n)%nat →
  is_Some (ic !! k) →
  (∀ v, v ∈ visited → tc (waits_for h ic) v k) →
  ∃ k' w, ic !! k' = Some w ∧ ready h ic w = true.
Proof.
  intros Hac. revert visited k.
  induction n as [|n IH]; intros visited k Hsize [w Hw] Hvis.
  - assert (k ∈ dom ic ∖ visited) as Hk.
    { apply elem_of_difference. split; [by apply elem_of_dom|].
      intros Hv. by apply (Hac k), Hvis. }
    apply Nat.le_0_r, size_empty_iff in Hsize. set_solver.
  - destruct (ready h ic w) eqn:Hr; [by eauto|].
    destruct (ready_false h ic w Hr) as (t & Ht & Hs).
    set (k' := KInt (line_number (h t))).
    assert (waits_for h ic k k') as Hedge by (by exists w, t).
    assert (k ∉ visited) as Hk.
    { intros Hv. by apply (Hac k), Hvis. }
    apply (IH (visited ∪ {[k]}) k'); [|done|].
    + assert (dom ic ∖ (visited ∪ {[k]}) ⊂ dom ic ∖ visited) as Hsub.
      { split; [set_solver|]. intros Hc.
        assert (k ∈ dom ic ∖ visited) as Hin.
        { apply elem_of_difference. split; [|done].
          apply elem_of_dom. by eexists. }
        apply Hc in Hin. set_solver. }
      apply subset_size in Hsub. lia.
    + intros v Hv. apply elem_of_union in Hv as [Hv|Hv].
      * eapply tc_r; [by apply Hvis|done].
      * apply elem_of_singleton in Hv as ->. by apply tc_once.
Qed.

Lemma ready_key_exists ic :
  ic ≠ ∅ → (∀ k, ¬ tc (waits_for h ic) k k) →
  ∃ k w, ic !! k = Some w ∧ ready h ic w = true.
Proof.
  intros Hne Hac. destruct (map_choose ic Hne) as (k & w & Hw).
  apply (walk_to_ready ic (size (dom ic ∖ (∅ : gset pykey))) ∅ k);
    [done|done|by eexists|set_solver].
Qed.

(** Without a cycle the loop ends, after at most as many passes as there
    are keys, and more fuel does not change what it yields. *)
Lemma dependency_loop_terminates (n : nat) ic :
  (size ic ≤ n)%nat → (∀ k, ¬ tc (waits_for h ic) k k) →
  ∃ yss, ∀ fuel, (n ≤ fuel)%nat → dependency_loop fuel h ic = (yss, Ok tt).
Proof.
  revert ic. induction n as [|n IH]; intros ic Hsize Hac.
  - apply Nat.le_0_r, map_size_empty_iff in Hsize as ->.
    exists []. intros [|fuel] _; simpl; by case_decide.
  - destruct (decide (ic = ∅)) as [->|Hne].
    { exists []. intros [|fuel] _; simpl; by case_decide. }
    destruct (full_pass_spec h ic) as (ic' & ys & Heq & Hy & Hall).
    destruct (ready_key_exists ic Hne Hac) as (k & w & Hw & Hr).
    destruct (Hall k w Hw Hr) as [Hgone _].
    pose proof (yields_from_subseteq h _ _ _ Hy) as Hsub.
    assert (ic' ⊂ ic) as Hstrict.
    { split; [done|]. intros Hc.
      pose proof (lookup_weaken _ _ _ _ Hw Hc). congruence. }
    apply map_subset_size in Hstrict.
    destruct (IH ic') as [yss Hyss]; [lia|by eapply waits_for_acyclic_subseteq|].
    exists (ys :: yss). intros [|fuel] Hfuel; [lia|]. simpl.
    case_decide; [done|]. rewrite Heq, Hyss by lia. done.
Qed.

(** A key on a cycle waits for a key on a cycle. *)
Lemma cycle_successor ic k :
  tc (waits_for h ic) k k →
  ∃ k', waits_for h ic k k' ∧ tc (waits_for h ic) k' k'.
Proof.
  intros H. inversion H as [? ? Hkk|? k' ? Hkk' Hk'k]; subst.
  - by exists k.
  - exists k'. split; [done|]. by eapply tc_r.
Qed.

(** Keys on a cycle of the initial working set are never yielded. *)
Lemma yields_from_keeps_cycles ic0 ic ys ic' :
  yields_from h ic ys ic' →
  (∀ k, tc (waits_for h ic0) k k → ic !! k = ic0 !! k) →
  (∀ k, tc (waits_for h ic0) k k → ic' !! k = ic0 !! k).
Proof.
  induction 1 as [|ic key w xs ic' Hk Hr Hy IH]; intros Hkeep; [done|].
  apply IH. intros k Hcyc.
  destruct (decide (k = key)) as [->|Hne]; [|by rewrite lookup_delete_ne; auto].
  exfalso.
  destruct (cycle_successor ic0 key Hcyc) as (k' & (w' & t & Hw' & Ht & -> & Hs) & Hcyc').
  rewrite <- (Hkeep key Hcyc) in Hw'. simplify_eq.
  rewrite <- (Hkeep _ Hcyc') in Hs.
  apply ready_true with (t := t) in Hr; [|done].
  rewrite Hr in Hs. by destruct Hs.
Qed.

(** With a cycle the loop never ends: whatever the number of passes, it
    is still running. *)
Lemma dependency_loop_stuck ic0 fuel ic :
  (∃ k, tc (waits_for h ic0) k k) →
  (∀ k, tc (waits_for h ic0) k k → ic !! k = ic0 !! k) →
  (dependency_loop fuel h ic).2 = OutOfFuel.
Proof.
  intros [k0 Hk0]. revert ic. induction fuel as [|fuel IH]; intros ic Hkeep.
  - simpl. case_decide as Hic; [|done]. exfalso.
    destruct (cycle_successor ic0 k0 Hk0) as (k' & (w & t & Hw & _) & _).
    rewrite <- (Hkeep k0 Hk0), Hic, lookup_empty in Hw. done.
  - simpl. case_decide as Hic.
    { exfalso.
      destruct (cycle_successor ic0 k0 Hk0) as (k' & (w & t & Hw & _) & _).
      rewrite <- (Hkeep k0 Hk0), Hic, lookup_empty in Hw. done. }
    destruct (full_pass_spec h ic) as (ic' & ys & -> & Hy & _).
    specialize (IH ic' (yields_from_keeps_cycles ic0 ic ys ic' Hy Hkeep)).
    by destruct (dependency_loop fuel h ic').
Qed.

End termination.

(** ** The save order of a cache *)

Lemma materialized_lookup c k r :
  materialized c !! k = Some r ↔ vwtask c !! k = Some (Some r).
Proof.
  unfold materialized. rewrite lookup_omap.
  destruct (vwtask c !! k) as [[r'|]|]; simpl; naive_solver.
Qed.

Lemma materialized_None c k :
  materialized c !! k = None ↔ dict_get (vwtask c) k = None.
Proof.
  unfold materialized, dict_get. rewrite lookup_omap.
  destruct (vwtask c !! k) as [[r'|]|]; simpl; naive_solver.
Qed.

(** Under the position invariant a materialized wrapper is found under
    its own line number. *)
Lemma materialized_at_line_number c w :
  position_invariant c → is_materialized c w →
  materialized c !! KInt (line_number (objects c w)) = Some w.
Proof.
  intros [Hkey _] [k Hk]. pose proof Hk as Hk'.
  apply materialized_lookup, Hkey in Hk'. by subst.
Qed.

Lemma materialized_values_NoDup c :
  position_invariant c → NoDup (map_to_list (materialized c)).*2.
Proof.
  intros [Hkey _]. apply NoDup_fmap_2_strong; [|apply NoDup_map_to_list].
  intros [k1 w1] [k2 w2] H1 H2 Heq. simpl in Heq. subst w2.
  apply elem_of_map_to_list, materialized_lookup, Hkey in H1.
  apply elem_of_map_to_list, materialized_lookup, Hkey in H2.
  by subst.
Qed.

Lemma listed_waits_for c w t :
  position_invariant c → listed c w t →
  waits_for (objects c) (materialized c)
    (KInt (line_number (objects c w))) (KInt (line_number (objects c t))).
Proof.
  intros Hinv (Hw & Ht & Hdep). exists w, t.
  split; [by apply materialized_at_line_number|].
  split; [done|]. split; [done|].
  exists t. by apply materialized_at_line_number.
Qed.



Lemma cycle_waiting_cycle c :
  position_invariant c → dependency_cycle c →
  ∃ k, tc (waits_for (objects c) (materialized c)) k k.
Proof.
  intros Hinv [w Hw]. exists (KInt (line_number (objects c w))).
  eapply (tc_congruence (λ w, KInt (line_number (objects c w))));
    [|exact Hw].
  intros x y. by apply listed_waits_for.
Qed.



(** C4, amended.  When the wrappers of the position cache are stored under
    their line numbers and their dependencies contain a cycle, the save
    order never ends and raises nothing: after any number of passes the
    generator is still running. *)
Theorem dependency_cycle_never_ends c :
  position_invariant c → dependency_cycle c →
  ∀ fuel, (vimwikitask_dependency_order fuel c).2 = OutOfFuel.
Proof.
  intros Hinv Hcyc fuel. unfold vimwikitask_dependency_order.
  apply (dependency_loop_stuck _ (materialized c)); [|done].
  by apply cycle_waiting_cycle.
Qed.

(** C10.  A wrapper of the working set whose dependencies all refer to
    line numbers that the position cache does not hold (or holds as
    [None]) is yielded in the first pass, and the generator raises
    nothing. *)
Theorem unmaterialized_dependencies_ignored fuel c key w :
  materialized c !! key = Some w →
  (∀ t, t ∈ add_dependencies (objects c w) →
        dict_get (vwtask c) (KInt (line_number (objects c t))) = None) →
  ∃ ys yss r,
    vimwikitask_dependency_order (S fuel) c = (ys :: yss, r) ∧
    w ∈ ys ∧ ∀ e, r ≠ Raise e.
Proof.
  intros Hw Hdeps.
  assert (ready (objects c) (materialized c) w = true) as Hr.
  { apply ready_true. intros t Ht. by apply materialized_None, Hdeps. }
  pose proof (dependency_loop_no_raise (objects c) (S fuel) (materialized c)) as Hno.
  unfold vimwikitask_dependency_order. simpl in *.
  case_decide as Hic; [by rewrite Hic, lookup_empty in Hw|].
  destruct (full_pass_spec (objects c) (materialized c)) as (ic' & ys & Heq & _ & Hall).
  rewrite Heq in *. destruct (Hall key w Hw Hr) as [_ Hin].
  destruct (dependency_loop fuel (objects c) ic') as [yss r].
  exists ys, yss, r. split; [done|]. split; [done|]. intros e. apply (Hno e).
Qed.

(** *** The sample caches *)






Lemma two_cyclic_position_invariant : position_invariant two_cyclic.
Proof.
  assert (∀ key r, vwtask two_cyclic !! key = Some (Some r) →
            (key = KInt 0 ∧ r = 10%nat) ∨ (key = KInt 1 ∧ r = 11%nat)) as Hl.
  { unfold two_cyclic. simpl. intros key r H.
    apply lookup_insert_Some in H as [[<- H]|[_ H]]; [by simplify_eq; auto|].
    apply lookup_singleton_Some in H as [<- H]. by simplify_eq; auto. }
  split.
  - intros key r H. by destruct (Hl _ _ H) as [[-> ->]|[-> ->]].
  - intros k1 k2 r1 r2 H1 H2.
    destruct (Hl _ _ H1) as [[-> ->]|[-> ->]];
      destruct (Hl _ _ H2) as [[-> ->]|[-> ->]]; simpl; intros; done.
Qed.

Lemma two_cyclic_cycle : dependency_cycle two_cyclic.
Proof.
  assert (is_materialized two_cyclic 10%nat) as H10 by (by exists (KInt 0)).
  assert (is_materialized two_cyclic 11%nat) as H11 by (by exists (KInt 1)).
  exists 10%nat. apply tc_l with 11%nat; [|apply tc_once].
  - split; [done|]. split; [done|]. simpl. left.
  - split; [done|]. split; [done|]. simpl. left.
Qed.

(** C4, as stated, fails: for two wrappers that depend on each other the
    save order raises no error, whatever the number of passes, and is
    never exhausted either. *)
Lemma cycle_raises_nothing :
  dependency_cycle two_cyclic ∧
  (¬ ∃ fuel yss e, vimwikitask_dependency_order fuel two_cyclic = (yss, Raise e)) ∧
  (¬ ∃ fuel yss, vimwikitask_dependency_order fuel two_cyclic = (yss, Ok tt)).
Proof.
  split; [exact two_cyclic_cycle|].
  assert (∀ fuel, (vimwikitask_dependency_order fuel two_cyclic).2 = OutOfFuel) as H.
  { intros fuel. unfold vimwikitask_dependency_order.
    apply (dependency_loop_stuck _ (materialized two_cyclic)); [|done].
    apply cycle_waiting_cycle;
      [exact two_cyclic_position_invariant|exact two_cyclic_cycle]. }
  split.
  - intros (fuel & yss & e & Heq). specialize (H fuel). by rewrite Heq in H.
  - intros (fuel & yss & Heq). specialize (H fuel). by rewrite Heq in H.
Qed.

Lemma dependency_cycle_never_ends_witness :
  (vimwikitask_dependency_order 7 two_cyclic).2 = OutOfFuel.
Proof.
  apply (dependency_cycle_never_ends two_cyclic).
  - exact two_cyclic_position_invariant.
  - exact two_cyclic_cycle.
Defined.

Lemma unmaterialized_dependencies_ignored_witness :
  ∃ ys yss r,
    vimwikitask_dependency_order 1 one_dangling = (ys :: yss, r) ∧
    10%nat ∈ ys ∧ ∀ e, r ≠ Raise e.
Proof.
  apply (unmaterialized_dependencies_ignored 0 one_dangling (KInt 0) 10%nat).
  - reflexivity.
  - intros t Ht. simpl in Ht. apply list_elem_of_singleton in Ht as ->.
    reflexivity.
Defined.

(** The save order of [three_lines]: line 2 comes after line 1. *)
Example three_lines_order :
  vimwikitask_dependency_order 3 three_lines
    = ([[11; 10]; [12]]%nat, Ok tt).
Proof. vm_compute. reflexivity. Qed.

(** ** Batched loading *)

Section load_tasks.
Variable GENERIC_TASK : string → option (option string * option string).
Variable export : TaskWarrior → list string → outcome (list Task).
Variable task_eq : option Task → pykey → bool.

Lemma truthy_Some uuid :
  truthy uuid = true ↔ ∃ u, uuid = Some u ∧ u ≠ "".
Proof.
  destruct uuid as [u|]; simpl.
  - rewrite negb_true_iff, bool_decide_eq_false. naive_solver.
  - naive_solver.
Qed.

(** The first loop reads only; it ends with the references of the lines
    or with the [TaskWikiException] of an unknown store. *)
Lemma collect_raw_task_info_spec lines acc c :
  (∃ raw, collect_raw_task_info GENERIC_TASK lines acc c = (Ok raw, c) ∧
          ∀ u tw, (u, tw) ∈ raw ↔ (u, tw) ∈ acc ∨ names GENERIC_TASK lines c u tw) ∨
  (∃ key, collect_raw_task_info GENERIC_TASK lines acc c
            = (Raise (TaskWikiException key), c)).
Proof.
  revert acc. induction lines as [|l lines IH]; intros acc; simpl.
  - left. exists acc. split; [done|]. intros u tw. split; [by left|].
    intros [H|(l & s & Hl & _)]; [done|]. by apply elem_of_nil in Hl.
  - destruct (GENERIC_TASK l) as [[source uuid]|] eqn:Hmatch.
    + unfold bind at 1, WarriorStore_getitem. step_st.
      destruct (warriors c !! py_or source "default") as [tw0|] eqn:Htw;
        [|right; by eexists].
      destruct (truthy uuid) eqn:Huuid.
      * apply truthy_Some in Huuid as (u0 & -> & Hu0). simpl.
        destruct (IH (acc ++ [(u0, tw0)])%list) as [(raw & Heq & Hraw)|[key Heq]];
          [left|right; by eexists].
        exists raw. split; [done|]. intros u tw. rewrite Hraw.
        rewrite elem_of_app, list_elem_of_singleton. split.
        -- intros [[H|H]|(l' & s & Hl' & H)]; [by left| |].
           ++ injection H as -> ->. right. exists l, source.
              split; [left|done].
           ++ right. exists l', s. split; [by right|done].
        -- intros [H|(l' & s & Hl' & Hm & Hne & Hw)]; [by left; left|].
           apply elem_of_cons in Hl' as [->|Hl'].
           ++ left. right. rewrite Hmatch in Hm. injection Hm as -> ->.
              congruence.
           ++ right. by exists l', s.
      * destruct (IH acc) as [(raw & Heq & Hraw)|[key Heq]];
          [left|right; by eexists].
        exists raw. split; [done|]. intros u tw. rewrite Hraw. split.
        -- intros [H|(l' & s & Hl' & H)]; [by left|].
           right. exists l', s. split; [by right|done].
        -- intros [H|(l' & s & Hl' & Hm & Hne & Hw)]; [by left|].
           apply elem_of_cons in Hl' as [->|Hl']; [|right; by exists l', s].
           exfalso. rewrite Hmatch in Hm. injection Hm as -> ->.
           simpl in Huuid. apply negb_false_iff, bool_decide_eq_true in Huuid.
           done.
    + destruct (IH acc) as [(raw & Heq & Hraw)|[key Heq]];
        [left|right; by eexists].
      exists raw. split; [done|]. intros u tw. rewrite Hraw. split.
      * intros [H|(l' & s & Hl' & H)]; [by left|].
        right. exists l', s. split; [by right|done].
      * intros [H|(l' & s & Hl' & Hm & Hne & Hw)]; [by left|].
        apply elem_of_cons in Hl' as [->|Hl']; [congruence|].
        right. by exists l', s.
Qed.

Lemma elem_of_uuids_of raw tw u : u ∈ uuids_of raw tw ↔ (u, tw) ∈ raw.
Proof.
  unfold uuids_of. rewrite list_elem_of_fmap. split.
  - intros ([u' tw'] & -> & H). apply list_elem_of_filter in H as [Heq H].
    simpl in *. by subst.
  - intros H. exists (u, tw). split; [done|].
    by apply list_elem_of_filter.
Qed.

Lemma foldl_filter_uuid q uuids :
  foldl filter_uuid q uuids
    = {| qs_warrior := qs_warrior q; qs_filter := qs_filter q ++ uuids |}.
Proof.
  revert q. induction uuids as [|u uuids IH]; intros q; simpl.
  - rewrite app_nil_r. by destruct q.
  - rewrite IH. simpl. by rewrite <- app_assoc.
Qed.

Lemma set_task_same c : set_task (task c) c = c.
Proof. by destruct c. Qed.

(** Storing the tasks of a result, one [__setitem__] after the other. *)
Lemma for_task_setitem fuel tw tasks c :
  for_ tasks (λ t, task_setitem task_eq fuel (KShortUUID (task_uuid t) tw) (Some t)) c
    = (Ok tt, set_task (store_tasks tw tasks (task c)) c).
Proof.
  revert c. induction tasks as [|t tasks IH]; intros c; simpl.
  - unfold store_tasks. simpl. by rewrite set_task_same.
  - unfold bind, task_setitem, zoom. rewrite setitem_some. rewrite IH.
    by destruct c.
Qed.

(** The last task stored under a key stays; other keys are untouched. *)
Lemma store_tasks_lookup tw tasks d key :
  (∃ t, t ∈ tasks ∧ key = KShortUUID (task_uuid t) tw ∧
        store_tasks tw tasks d !! key = Some (Some t)) ∨
  ((∀ t, t ∈ tasks → key ≠ KShortUUID (task_uuid t) tw) ∧
   store_tasks tw tasks d !! key = d !! key).
Proof.
  revert d. induction tasks as [|t tasks IH]; intros d.
  - right. split; [|done]. intros t Ht. by apply elem_of_nil in Ht.
  - change (store_tasks tw (t :: tasks) d) with
      (store_tasks tw tasks (<[KShortUUID (task_uuid t) tw := Some t]> d)).
    destruct (IH (<[KShortUUID (task_uuid t) tw := Some t]> d))
      as [(t' & Ht' & Hk & Hl)|[Hno Hl]].
    + left. exists t'. split; [by right|done].
    + destruct (decide (key = KShortUUID (task_uuid t) tw)) as [->|Hne].
      * left. exists t. split; [left|]. split; [done|].
        by rewrite Hl, lookup_insert_eq.
      * right. split.
        -- intros t' Ht'. apply elem_of_cons in Ht' as [->|Ht']; auto.
        -- by rewrite Hl, lookup_insert_ne.
Qed.

(** The body of the second loop: nothing for a connection without
    uuids, else one [Export] and the storing of its result. *)
Lemma load_from_warrior_spec fuel raw tw c :
  load_from_warrior export task_eq fuel raw tw c =
    match uuids_of raw tw with
    | [] => (Ok tt, c)
    | _ =>
        match export tw (uuids_of raw tw) with
        | Ok ts => (Ok tt, set_task (store_tasks tw ts (task c))
                             (log (Export tw (uuids_of raw tw)) c))
        | Raise e => (Raise e, log (Export tw (uuids_of raw tw)) c)
        | OutOfFuel => (OutOfFuel, log (Export tw (uuids_of raw tw)) c)
        end
    end.
Proof.
  unfold load_from_warrior. destruct (uuids_of raw tw) as [|u uuids]; [done|].
  unfold bind, iterate. rewrite foldl_filter_uuid. simpl.
  destruct (export tw (u :: uuids)) as [ts|e|]; [|done|done].
  by rewrite for_task_setitem.
Qed.

(** The second loop.  [queried] lists the connections contacted, in
    order; every key of the identity cache either holds the last task
    stored under it or is as before. *)
Lemma load_loop_spec fuel raw ws c :
  ∃ queried : list TaskWarrior,
    let r := for_ ws (load_from_warrior export task_eq fuel raw) c in
    trace r.2 = (trace c ++ ((λ tw, Export tw (uuids_of raw tw)) <$> queried))%list ∧
    queried `sublist_of` ws ∧
    (∀ tw, tw ∈ queried → uuids_of raw tw ≠ []) ∧
    (r.1 = Ok tt →
       (∀ tw, tw ∈ ws → uuids_of raw tw ≠ [] → tw ∈ queried) ∧
       ∀ key,
         (∃ tw ts t, tw ∈ queried ∧ export tw (uuids_of raw tw) = Ok ts ∧
                     t ∈ ts ∧ key = KShortUUID (task_uuid t) tw ∧
                     task r.2 !! key = Some (Some t)) ∨
         ((∀ tw ts t, tw ∈ queried → export tw (uuids_of raw tw) = Ok ts →
                      t ∈ ts → key ≠ KShortUUID (task_uuid t) tw) ∧
          task r.2 !! key = task c !! key)).
Proof.
  cbv zeta. revert c. induction ws as [|tw0 ws IH]; intros c.
  - exists []. simpl. rewrite app_nil_r.
    split; [done|]. split; [done|]. split.
    { intros tw Htw. by apply elem_of_nil in Htw. }
    intros _. split.
    { intros tw Htw. by apply elem_of_nil in Htw. }
    intros key. right. split; [|done].
    intros tw ts t Htw. by apply elem_of_nil in Htw.
  - assert (for_ (tw0 :: ws) (load_from_warrior export task_eq fuel raw) c
            = match load_from_warrior export task_eq fuel raw tw0 c with
              | (Ok _, c1) => for_ ws (load_from_warrior export task_eq fuel raw) c1
              | (Raise e, c1) => (Raise e, c1)
              | (OutOfFuel, c1) => (OutOfFuel, c1)
              end) as -> by reflexivity.
    rewrite load_from_warrior_spec.
    destruct (uuids_of raw tw0) as [|u0 uuids0] eqn:Huuids.
    { destruct (IH c) as (queried & Htrace & Hsub & Hne & Hok).
      exists queried. split; [done|]. split; [by apply sublist_cons|].
      split; [done|]. intros Hr. destruct (Hok Hr) as [Hall Hkeys].
      split; [|done]. intros tw Htw Htwne.
      apply elem_of_cons in Htw as [->|Htw]; [congruence|by apply Hall]. }
    rewrite <- Huuids.
    destruct (export tw0 (uuids_of raw tw0)) as [ts0|e|] eqn:Hexp.
    + set (c1 := set_task _ _).
      destruct (IH c1) as (queried & Htrace & Hsub & Hne & Hok).
      exists (tw0 :: queried). simpl. split.
      { rewrite Htrace. subst c1. simpl. by rewrite <- app_assoc. }
      split; [by apply sublist_skip|]. split.
      { intros tw Htw. apply elem_of_cons in Htw as [->|Htw]; [congruence|auto]. }
      intros Hr. destruct (Hok Hr) as [Hall Hkeys]. split.
      { intros tw Htw Htwne. apply elem_of_cons in Htw as [->|Htw];
          [left|right; by apply Hall]. }
      intros key. destruct (Hkeys key) as [(tw & ts & t & Htw & He & Ht & Hk & Hl)|[Hno Hl]].
      * left. exists tw, ts, t. split; [by right|done].
      * subst c1. simpl in Hl.
        destruct (store_tasks_lookup tw0 ts0 (task c) key)
          as [(t & Ht & Hk & Hl')|[Hno' Hl']].
        -- left. exists tw0, ts0, t. split; [left|].
           split; [done|]. split; [done|]. split; [done|]. congruence.
        -- right. split; [|congruence].
           intros tw ts t Htw He Ht. apply elem_of_cons in Htw as [->|Htw].
           ++ rewrite Hexp in He. injection He as <-. by apply Hno'.
           ++ by eapply Hno.
    + exists [tw0]. simpl. split; [done|].
      split; [apply sublist_skip, sublist_nil_l|]. split; [|done].
      intros tw Htw. apply list_elem_of_singleton in Htw as ->. congruence.
    + exists [tw0]. simpl. split; [done|].
      split; [apply sublist_skip, sublist_nil_l|]. split; [|done].
      intros tw Htw. apply list_elem_of_singleton in Htw as ->. congruence.
Qed.



End load_tasks.

(** On the sample document both uuids are asked for in one query to the
    default connection; the other connection is not contacted. *)
Example two_tasks_one_query :
  trace (load_tasks sample_GENERIC_TASK sample_export never_equal 1 two_tasks).2
    = [Export 0%nat ["aa"; "bb"]].
Proof. vm_compute. reflexivity. Qed.

(** * Further properties *)

(** ** The line operations on the document *)

Lemma buffer_index_valid b position :
  valid_position (length b) position →
  buffer_index b position = Some (Z.to_nat position).
Proof.
  unfold valid_position, buffer_index. intros H. cbv zeta.
  destruct (decide (position < 0)) as [Hn|Hn]; [lia|].
  case_decide; [done|lia].
Qed.

(** X1.  [insert_line] with a position from 0 to the length of the
    document puts the line into the buffer at that position and then
    raises [AttributeError]: the lines before keep their place, the lines
    from the position on move down by one, while the position cache and
    the line numbers of the wrappers stay as they were. *)
Theorem insert_line_not_atomic l position c :
  0 ≤ position ≤ Z.of_nat (length (buffer c)) →
  let r := insert_line l position c in
  r.1 = Raise (AttributeError "vimwikitask_cache") ∧
  buffer r.2 !! Z.to_nat position = Some l ∧
  (∀ i, (i < Z.to_nat position)%nat → buffer r.2 !! i = buffer c !! i) ∧
  (∀ i, (Z.to_nat position ≤ i)%nat → buffer r.2 !! S i = buffer c !! i) ∧
  vwtask r.2 = vwtask c ∧ objects r.2 = objects c.
Proof.
  intros Hp. cbv zeta.
  unfold insert_line, buffer_append, self_vimwikitask_cache. step_st.
  case_decide; [|lia]. simpl.
  assert (length (take (Z.to_nat position) (buffer c)) = Z.to_nat position) as Hlen.
  { rewrite length_take. lia. }
  repeat split.
  - rewrite lookup_app_r by lia. by rewrite Hlen, Nat.sub_diag.
  - intros i Hi. rewrite lookup_app_l by lia. by apply lookup_take_lt.
  - intros i Hi. rewrite lookup_app_r by lia. rewrite Hlen.
    replace (S i - Z.to_nat position)%nat with (S (i - Z.to_nat position)) by lia.
    simpl. rewrite lookup_drop. f_equal. lia.
Qed.

Lemma insert_line_not_atomic_witness :
  (insert_line "* [ ] new" 1 three_lines).1
    = Raise (AttributeError "vimwikitask_cache") ∧
  buffer (insert_line "* [ ] new" 1 three_lines).2 !! Z.to_nat 1
    = Some "* [ ] new" ∧
  (∀ i, (i < Z.to_nat 1)%nat →
        buffer (insert_line "* [ ] new" 1 three_lines).2 !! i
          = buffer three_lines !! i) ∧
  (∀ i, (Z.to_nat 1 ≤ i)%nat →
        buffer (insert_line "* [ ] new" 1 three_lines).2 !! S i
          = buffer three_lines !! i) ∧
  vwtask (insert_line "* [ ] new" 1 three_lines).2 = vwtask three_lines ∧
  objects (insert_line "* [ ] new" 1 three_lines).2 = objects three_lines.
Proof. apply (insert_line_not_atomic "* [ ] new" 1 three_lines). simpl. lia. Defined.

(** X2.  [remove_line] with a position of the document deletes that line
    from the buffer and then raises [AttributeError]: the position cache
    keeps all its entries, the one of the deleted line included. *)
Theorem remove_line_not_atomic position c :
  valid_position (length (buffer c)) position →
  remove_line position c =
    (Raise (AttributeError "vimwikitask_cache"),
     set_buffer (delete (Z.to_nat position) (buffer c)) c) ∧
  S (length (buffer (remove_line position c).2)) = length (buffer c) ∧
  vwtask (remove_line position c).2 = vwtask c.
Proof.
  intros Hp. unfold remove_line, buffer_delitem, self_vimwikitask_cache.
  step_st. rewrite buffer_index_valid by done. simpl.
  split; [done|]. split; [|done].
  unfold valid_position in Hp.
  assert (is_Some (buffer c !! Z.to_nat position)) as Hx.
  { apply lookup_lt_is_Some_2. lia. }
  rewrite (length_delete _ _ Hx). apply lookup_lt_is_Some_1 in Hx. lia.
Qed.

Lemma remove_line_not_atomic_witness :
  remove_line 1 three_lines =
    (Raise (AttributeError "vimwikitask_cache"),
     set_buffer (delete (Z.to_nat 1) (buffer three_lines)) three_lines) ∧
  S (length (buffer (remove_line 1 three_lines).2)) = length (buffer three_lines) ∧
  vwtask (remove_line 1 three_lines).2 = vwtask three_lines.
Proof.
  apply (remove_line_not_atomic 1 three_lines).
  unfold valid_position. simpl. lia.
Defined.

(** X3.  Removing the line that [insert_line] has just inserted gives the
    document back. *)
Theorem insert_then_remove_line l position c :
  0 ≤ position ≤ Z.of_nat (length (buffer c)) →
  buffer (remove_line position (insert_line l position c).2).2 = buffer c.
Proof.
  intros Hp.
  unfold insert_line, buffer_append, self_vimwikitask_cache. step_st.
  case_decide; [|lia]. simpl.
  unfold remove_line, buffer_delitem, self_vimwikitask_cache. step_st.
  rewrite buffer_index_valid.
  2:{ unfold valid_position. rewrite length_app, length_take. simpl.
      rewrite length_drop. lia. }
  simpl.
  assert (length (take (Z.to_nat position) (buffer c)) = Z.to_nat position) as Hlen.
  { rewrite length_take. lia. }
  rewrite <- Hlen at 1. rewrite delete_middle. apply take_drop.
Qed.

Lemma insert_then_remove_line_witness :
  buffer (remove_line 3 (insert_line "* [ ] new" 3 three_lines).2).2
    = buffer three_lines.
Proof. apply (insert_then_remove_line "* [ ] new" 3 three_lines). simpl. lia. Defined.

(** What [swap_lines] does for two positions of the document. *)
Lemma swap_lines_valid object_eq fuel position1 position2 c l1 l2 :
  valid_position (length (buffer c)) position1 →
  valid_position (length (buffer c)) position2 →
  buffer c !! Z.to_nat position1 = Some l1 →
  buffer c !! Z.to_nat position2 = Some l2 →
  swap_lines object_eq fuel position1 position2 c =
    (Raise (NameError (name_reached (dict_get (vwtask c) (KInt position2)))),
     set_buffer (<[Z.to_nat position1 := l2]>
                   (<[Z.to_nat position2 := l1]> (buffer c))) c).
Proof.
  intros Hp1 Hp2 Hl1 Hl2.
  unfold swap_lines, buffer_len, buffer_getitem, buffer_setitem. step_st.
  case_decide as Hge; [unfold valid_position in *; lia|].
  rewrite (buffer_index_valid _ position2) by done. simpl. rewrite Hl2.
  rewrite (buffer_index_valid _ position1) by done. simpl. rewrite Hl1. simpl.
  repeat (rewrite buffer_index_valid by (simpl; by rewrite ?length_insert);
          simpl).
  unfold bind. rewrite vwtask_getitem_raises. done.
Qed.

(** X4.  [swap_lines] with two positions of the document exchanges the
    two lines of the buffer, leaves the other lines alone and then raises
    [NameError]; the position cache and the wrappers are not touched. *)
Theorem swap_lines_exchanges_lines_only object_eq fuel position1 position2 c :
  valid_position (length (buffer c)) position1 →
  valid_position (length (buffer c)) position2 →
  (∃ name, (swap_lines object_eq fuel position1 position2 c).1
             = Raise (NameError name)) ∧
  buffer (swap_lines object_eq fuel position1 position2 c).2 !! Z.to_nat position1
    = buffer c !! Z.to_nat position2 ∧
  buffer (swap_lines object_eq fuel position1 position2 c).2 !! Z.to_nat position2
    = buffer c !! Z.to_nat position1 ∧
  (∀ i, i ≠ Z.to_nat position1 → i ≠ Z.to_nat position2 →
        buffer (swap_lines object_eq fuel position1 position2 c).2 !! i
          = buffer c !! i) ∧
  vwtask (swap_lines object_eq fuel position1 position2 c).2 = vwtask c ∧
  objects (swap_lines object_eq fuel position1 position2 c).2 = objects c.
Proof.
  intros Hp1 Hp2. pose proof Hp1 as Hv1. pose proof Hp2 as Hv2.
  unfold valid_position in Hv1, Hv2.
  destruct (lookup_lt_is_Some_2 (buffer c) (Z.to_nat position1)) as [l1 Hl1]; [lia|].
  destruct (lookup_lt_is_Some_2 (buffer c) (Z.to_nat position2)) as [l2 Hl2]; [lia|].
  rewrite (swap_lines_valid _ _ _ _ _ l1 l2) by done. simpl.
  split; [by eexists|]. split; [|split; [|split; [|done]]].
  - rewrite list_lookup_insert_eq by (rewrite length_insert; lia). done.
  - destruct (decide (Z.to_nat position1 = Z.to_nat position2)) as [Heq|Hne].
    + rewrite Heq in *. rewrite list_lookup_insert_eq by (rewrite length_insert; lia).
      congruence.
    + rewrite list_lookup_insert_ne by done.
      rewrite list_lookup_insert_eq by lia. done.
  - intros i Hi1 Hi2. by rewrite !list_lookup_insert_ne.
Qed.

Lemma swap_lines_exchanges_lines_only_witness :
  (∃ name, (swap_lines never_equal 1 0 2 three_lines).1 = Raise (NameError name)) ∧
  buffer (swap_lines never_equal 1 0 2 three_lines).2 !! Z.to_nat 0
    = buffer three_lines !! Z.to_nat 2 ∧
  buffer (swap_lines never_equal 1 0 2 three_lines).2 !! Z.to_nat 2
    = buffer three_lines !! Z.to_nat 0 ∧
  (∀ i, i ≠ Z.to_nat 0 → i ≠ Z.to_nat 2 →
        buffer (swap_lines never_equal 1 0 2 three_lines).2 !! i
          = buffer three_lines !! i) ∧
  vwtask (swap_lines never_equal 1 0 2 three_lines).2 = vwtask three_lines ∧
  objects (swap_lines never_equal 1 0 2 three_lines).2 = objects three_lines.
Proof.
  apply (swap_lines_exchanges_lines_only never_equal 1 0 2 three_lines);
    unfold valid_position; simpl; lia.
Defined.

(** X5.  Swapping the same two lines a second time gives the document
    back. *)
Theorem swap_lines_twice object_eq fuel position1 position2 c :
  valid_position (length (buffer c)) position1 →
  valid_position (length (buffer c)) position2 →
  buffer (swap_lines object_eq fuel position1 position2
            (swap_lines object_eq fuel position1 position2 c).2).2
    = buffer c.
Proof.
  intros Hp1 Hp2. pose proof Hp1 as Hv1. pose proof Hp2 as Hv2.
  unfold valid_position in Hv1, Hv2.
  destruct (lookup_lt_is_Some_2 (buffer c) (Z.to_nat position1)) as [l1 Hl1]; [lia|].
  destruct (lookup_lt_is_Some_2 (buffer c) (Z.to_nat position2)) as [l2 Hl2]; [lia|].
  rewrite (swap_lines_valid _ _ _ _ c l1 l2) by done. simpl.
  set (b1 := <[Z.to_nat position1 := l2]> (<[Z.to_nat position2 := l1]> (buffer c))).
  assert (length b1 = length (buffer c)) as Hlen.
  { subst b1. by rewrite !length_insert. }
  assert (b1 !! Z.to_nat position1 = Some l2) as Hb1.
  { subst b1. apply list_lookup_insert_eq. rewrite length_insert. lia. }
  assert (b1 !! Z.to_nat position2 = Some (if decide (Z.to_nat position1 = Z.to_nat position2) then l2 else l1)) as Hb2.
  { subst b1. case_decide as Heq.
    - rewrite Heq. apply list_lookup_insert_eq. rewrite length_insert. lia.
    - rewrite list_lookup_insert_ne by done. apply list_lookup_insert_eq. lia. }
  rewrite (swap_lines_valid object_eq fuel position1 position2
             (set_buffer b1 c) l2
             (if decide (Z.to_nat position1 = Z.to_nat position2) then l2 else l1));
    simpl; [|by rewrite Hlen|by rewrite Hlen|done|done].
  apply list_eq. intros i.
  destruct (decide (i = Z.to_nat position1)) as [->|Hi1].
  - rewrite list_lookup_insert_eq by (rewrite length_insert; lia).
    case_decide as Heq; [|done]. rewrite Heq in Hl1. congruence.
  - rewrite list_lookup_insert_ne by done.
    destruct (decide (i = Z.to_nat position2)) as [->|Hi2].
    + rewrite list_lookup_insert_eq by lia. congruence.
    + rewrite list_lookup_insert_ne by done. subst b1.
      by rewrite !list_lookup_insert_ne.
Qed.

Lemma swap_lines_twice_witness :
  buffer (swap_lines never_equal 1 0 2
            (swap_lines never_equal 1 0 2 three_lines).2).2
    = buffer three_lines.
Proof.
  apply (swap_lines_twice never_equal 1 0 2 three_lines);
    unfold valid_position; simpl; lia.
Defined.

(** ** The stores *)

(** X6.  Assigning an item that is not [None] stores it under the key
    and leaves the other keys alone, but the item cannot be read back:
    [store[key]] then raises [NameError] (for the name [vimwikitask]) and
    the store stays as the assignment left it. *)
Theorem stored_item_not_readable {V} (py_eq : option V → pykey → bool)
    fuel key (v : V) (d : gmap pykey (option V)) :
  NoNoneStore_setitem py_eq fuel key (Some v) d = (Ok tt, <[key := Some v]> d) ∧
  dict_get (<[key := Some v]> d) key = Some v ∧
  (∀ key', key' ≠ key → <[key := Some v]> d !! key' = d !! key') ∧
  NoNoneStore_getitem key (<[key := Some v]> d)
    = (Raise (NameError "vimwikitask"), <[key := Some v]> d).
Proof.
  split; [done|]. split; [|split].
  - unfold dict_get. by rewrite lookup_insert_eq.
  - intros key' Hne. by rewrite lookup_insert_ne.
  - rewrite getitem_raises. unfold dict_get. by rewrite lookup_insert_eq.
Qed.

(** X7.  No call of [__setitem__] or [__getitem__] puts a [None] into a
    store: a store that holds no [None] holds none afterwards, whatever
    the key and the value assigned. *)
Theorem NoNoneStore_never_stores_none {V} (py_eq : option V → pykey → bool)
    fuel key (value : option V) (d : gmap pykey (option V)) :
  no_none d →
  no_none (NoNoneStore_setitem py_eq fuel key value d).2 ∧
  no_none (NoNoneStore_getitem key d).2.
Proof.
  intros Hd. split; [|by rewrite getitem_raises].
  destruct value as [v|].
  - rewrite setitem_some. simpl. intros key'.
    destruct (decide (key' = key)) as [->|Hne].
    + by rewrite lookup_insert_eq.
    + rewrite lookup_insert_ne by done. apply Hd.
  - destruct fuel as [|fuel]; [done|]. by rewrite setitem_none_raises.
Qed.

Lemma NoNoneStore_never_stores_none_witness :
  no_none (NoNoneStore_setitem never_equal 1 (KInt 1) None (vwtask three_lines)).2 ∧
  no_none (NoNoneStore_getitem (KInt 1) (vwtask three_lines)).2.
Proof.
  apply (NoNoneStore_never_stores_none never_equal 1 (KInt 1) None
           (vwtask three_lines)).
  intros key Hkey. unfold three_lines in Hkey. simpl in Hkey.
  apply lookup_insert_Some in Hkey as [[_ [=]]|[_ Hkey]].
  apply lookup_insert_Some in Hkey as [[_ [=]]|[_ Hkey]].
  by apply lookup_singleton_Some in Hkey as [_ [=]].
Defined.

(** X8.  A connection stored in the [WarriorStore] is returned for its
    key and the other keys answer as before; a key without a connection
    raises [TaskWikiException] (not [KeyError]) and changes nothing. *)
Theorem WarriorStore_setitem_getitem key tw key' c :
  WarriorStore_getitem key (WarriorStore_setitem key tw c).2
    = (Ok tw, (WarriorStore_setitem key tw c).2) ∧
  (key' ≠ key →
     (WarriorStore_getitem key' (WarriorStore_setitem key tw c).2).1
       = (WarriorStore_getitem key' c).1) ∧
  (WarriorStore_getitem key' c = (Raise (TaskWikiException key'), c)
     ↔ warriors c !! key' = None).
Proof.
  unfold WarriorStore_getitem, WarriorStore_setitem. step_st.
  split; [by rewrite lookup_insert_eq|]. split.
  - intros Hne. rewrite lookup_insert_ne by done.
    by destruct (warriors c !! key').
  - by destruct (warriors c !! key').
Qed.

(** ** WarriorStore.__init__ *)

Lemma add_extra_warriors_spec construct defaults defs ws ws' :
  NoDup defs.*1 →
  add_extra_warriors construct defaults defs ws = Ok ws' →
  ∀ key tw,
    ws' !! key = Some tw ↔
    (∃ def overrides, (key, def) ∈ defs ∧
        construct (def ∪ defaults) = Ok overrides ∧
        tw = {| tw_kwargs := def ∪ defaults; tw_overrides := overrides |}) ∨
    ((key ∉ defs.*1) ∧ ws !! key = Some tw).
Proof.
  revert ws. induction defs as [|[k def] defs IH]; intros ws Hnd Heq key tw.
  - simpl in Heq. injection Heq as <-. split.
    + intros H. right. split; [|done]. by apply not_elem_of_nil.
    + intros [(d & o & Hin & _)|[_ H]]; [by apply elem_of_nil in Hin|done].
  - simpl in Hnd. apply NoDup_cons in Hnd as [Hnotin Hnd]. simpl in Heq.
    unfold new_TaskWarrior in Heq.
    destruct (construct (def ∪ defaults)) as [o| |] eqn:Hc; [|done|done].
    rewrite (IH _ Hnd Heq key tw). split.
    + intros [(d & o' & Hin & Hc' & ->)|[Hout Hl]].
      * left. exists d, o'. split; [by right|done].
      * destruct (decide (key = k)) as [->|Hne].
        -- rewrite lookup_insert_eq in Hl. injection Hl as <-.
           left. exists def, o. split; [left|done].
        -- rewrite lookup_insert_ne in Hl by done. right. split; [|done].
           simpl. intros Hin. apply elem_of_cons in Hin as [?|?]; done.
    + intros [(d & o' & Hin & Hc' & ->)|[Hout Hl]].
      * apply elem_of_cons in Hin as [Heq'|Hin].
        -- injection Heq' as -> ->. right. split; [done|].
           rewrite lookup_insert_eq. congruence.
        -- left. by exists d, o'.
      * simpl in Hout. apply not_elem_of_cons in Hout as [Hne Hout].
        right. split; [done|]. by rewrite lookup_insert_ne.
Qed.

(** X9.  When [WarriorStore()] is built, it holds a connection for
    [default] and one for each key of [taskwiki_extra_warriors], and no
    other; every connection has its [context] override set to the empty
    string; the connection of an extra key is built from the default
    locations updated with the settings of that key, and the default
    connection (unless an extra key is itself called [default]) from the
    default locations alone. *)
Theorem WarriorStore_init_spec construct vars ws :
  WarriorStore_init construct vars = Ok ws →
  (∀ key, is_Some (ws !! key) ↔
          key = "default" ∨
          is_Some (default ∅ (taskwiki_extra_warriors vars) !! key)) ∧
  (∀ key tw, ws !! key = Some tw → tw_overrides tw !! "context" = Some "") ∧
  (∀ key def tw,
     default ∅ (taskwiki_extra_warriors vars) !! key = Some def →
     ws !! key = Some tw → tw_kwargs tw = def ∪ default_kwargs vars) ∧
  (∀ tw,
     default ∅ (taskwiki_extra_warriors vars) !! "default" = None →
     ws !! "default" = Some tw → tw_kwargs tw = default_kwargs vars).
Proof.
  unfold WarriorStore_init, new_TaskWarrior at 1.
  destruct (construct (default_kwargs vars)) as [o0| |] eqn:Hc0; [|done|done].
  set (extra := default ∅ (taskwiki_extra_warriors vars)).
  destruct (add_extra_warriors _ _ _ _) as [ws0| |] eqn:Hadd; [|done|done].
  intros [= <-].
  pose proof (add_extra_warriors_spec _ _ _ _ _
                (NoDup_fst_map_to_list extra) Hadd) as Hspec.
  assert (∀ key, key ∈ (map_to_list extra).*1 ↔ is_Some (extra !! key)) as Hkeys.
  { intros key. rewrite list_elem_of_fmap. split.
    - intros ([k d] & -> & H). apply elem_of_map_to_list in H. by eexists.
    - intros [d H]. exists (key, d). split; [done|]. by apply elem_of_map_to_list. }
  split; [|split; [|split]].
  - intros key. rewrite lookup_fmap, fmap_is_Some. split.
    + intros [tw Htw]. apply Hspec in Htw as [(d & o & Hin & _)|[_ Hl]].
      * right. apply elem_of_map_to_list in Hin. by eexists.
      * apply lookup_singleton_Some in Hl as [<- _]. by left.
    + intros Hkey. destruct (decide (is_Some (extra !! key))) as [[d Hd]|Hno].
      * assert ((key, d) ∈ map_to_list extra) as Hin by (by apply elem_of_map_to_list).
        pose proof Hadd as Hadd'.
        assert (∃ o, construct (d ∪ default_kwargs vars) = Ok o) as [o Ho].
        { clear -Hadd Hin. revert Hadd. generalize ({["default" := {| tw_kwargs := default_kwargs vars; tw_overrides := o0 |}]} : gmap string TaskWarriorObject).
          induction (map_to_list extra) as [|[k d'] defs IH]; intros w Hadd;
            [by apply elem_of_nil in Hin|].
          simpl in Hadd. unfold new_TaskWarrior in Hadd.
          destruct (construct (d' ∪ default_kwargs vars)) as [o| |] eqn:Hc;
            [|done|done].
          apply elem_of_cons in Hin as [[= -> ->]|Hin]; [by eexists|].
          by eapply IH. }
        eexists. apply Hspec. left. by exists d, o.
      * destruct Hkey as [->|Hkey]; [|done].
        eexists. apply Hspec. right. split; [by rewrite Hkeys|].
        by rewrite lookup_singleton_eq.
  - intros key tw. rewrite lookup_fmap. intros Htw.
    apply fmap_Some in Htw as (tw0 & _ & ->). simpl.
    by rewrite lookup_insert_eq.
  - intros key def tw Hdef. rewrite lookup_fmap. intros Htw.
    apply fmap_Some in Htw as (tw0 & Htw0 & ->). simpl.
    apply Hspec in Htw0 as [(d & o & Hin & _ & ->)|[Hout _]].
    + apply elem_of_map_to_list in Hin. simpl. congruence.
    + exfalso. apply Hout, Hkeys. by eexists.
  - intros tw Hno. rewrite lookup_fmap. intros Htw.
    apply fmap_Some in Htw as (tw0 & Htw0 & ->). simpl.
    apply Hspec in Htw0 as [(d & o & Hin & _)|[_ Hl]].
    + apply elem_of_map_to_list in Hin. congruence.
    + by apply lookup_singleton_Some in Hl as [_ <-].
Qed.

Lemma WarriorStore_init_spec_witness :
  (∀ key, is_Some (sample_warriors !! key) ↔
          key = "default" ∨
          is_Some (default ∅ (taskwiki_extra_warriors sample_vars) !! key)) ∧
  (∀ key tw, sample_warriors !! key = Some tw →
             tw_overrides tw !! "context" = Some "") ∧
  (∀ key def tw,
     default ∅ (taskwiki_extra_warriors sample_vars) !! key = Some def →
     sample_warriors !! key = Some tw →
     tw_kwargs tw = def ∪ default_kwargs sample_vars) ∧
  (∀ tw,
     default ∅ (taskwiki_extra_warriors sample_vars) !! "default" = None →
     sample_warriors !! "default" = Some tw →
     tw_kwargs tw = default_kwargs sample_vars).
Proof.
  apply (WarriorStore_init_spec sample_construct sample_vars sample_warriors).
  vm_compute. reflexivity.
Defined.

(** The sample store: the extra connection keeps the default [taskrc]
    and uses its own data location. *)
Example sample_warriors_work :
  tw_kwargs <$> sample_warriors !! "work"
    = Some {[ "data_location" := "~/work/.task";
              "taskrc_location" := "~/.taskrc" ]} ∧
  tw_kwargs <$> sample_warriors !! "default"
    = Some {[ "data_location" := "~/.task"; "taskrc_location" := "~/.taskrc" ]}.
Proof. split; vm_compute; reflexivity. Qed.

(** ** More on batched loading *)

Section load_tasks_more.
Variable GENERIC_TASK : string → option (option string * option string).
Variable export : TaskWarrior → list string → outcome (list Task).
Variable task_eq : option Task → pykey → bool.

(** The first loop raises exactly when a matching line names a store
    that is not configured, whether or not the line carries a uuid. *)
Lemma collect_raises_iff lines acc c :
  (∃ key, collect_raw_task_info GENERIC_TASK lines acc c
            = (Raise (TaskWikiException key), c)) ↔
  ∃ l source uuid, l ∈ lines ∧ GENERIC_TASK l = Some (source, uuid) ∧
                   warriors c !! py_or source "default" = None.
Proof.
  revert acc. induction lines as [|l lines IH]; intros acc; simpl.
  - split; [by intros [key [=]]|].
    intros (l & s & u & Hl & _). by apply elem_of_nil in Hl.
  - destruct (GENERIC_TASK l) as [[source uuid]|] eqn:Hmatch.
    + unfold bind at 1, WarriorStore_getitem. step_st.
      destruct (warriors c !! py_or source "default") as [tw0|] eqn:Htw.
      * assert (∀ acc',
          (∃ key, collect_raw_task_info GENERIC_TASK lines acc' c
                    = (Raise (TaskWikiException key), c)) ↔
          ∃ l0 source0 uuid0, l0 ∈ l :: lines ∧
             GENERIC_TASK l0 = Some (source0, uuid0) ∧
             warriors c !! py_or source0 "default" = None) as Hrest.
        { intros acc'. rewrite IH. split.
          - intros (l0 & s & u & Hl0 & H). exists l0, s, u. split; [by right|done].
          - intros (l0 & s & u & Hl0 & Hm & Hw).
            apply elem_of_cons in Hl0 as [->|Hl0]; [|by exists l0, s, u].
            rewrite Hmatch in Hm. injection Hm as <- <-. congruence. }
        destruct (truthy uuid); apply Hrest.
      * split; [|by eexists]. intros _. exists l, source, uuid.
        split; [left|done].
    + rewrite IH. split.
      * intros (l0 & s & u & Hl0 & H). exists l0, s, u. split; [by right|done].
      * intros (l0 & s & u & Hl0 & Hm & Hw).
        apply elem_of_cons in Hl0 as [->|Hl0]; [congruence|by exists l0, s, u].
Qed.


Lemma same_but_tasks_refl c : same_but_tasks c c.
Proof. by repeat split. Qed.

Lemma same_but_tasks_trans c1 c2 c3 :
  same_but_tasks c1 c2 → same_but_tasks c2 c3 → same_but_tasks c1 c3.
Proof.
  unfold same_but_tasks. intros (?&?&?&?&?&?&?) (?&?&?&?&?&?&?).
  repeat split; congruence.
Qed.

(** The second loop: the state it leaves, its outcome, and the
    connections that answered when it ends normally. *)
Lemma load_loop_state fuel raw ws c :
  same_but_tasks c (for_ ws (load_from_warrior export task_eq fuel raw) c).2 ∧
  task (for_ ws (load_from_warrior export task_eq fuel raw) c).2
    = loaded export raw ws (task c) ∧
  (∀ c', (for_ ws (load_from_warrior export task_eq fuel raw) c').1
         = (for_ ws (load_from_warrior export task_eq fuel raw) c).1) ∧
  ((for_ ws (load_from_warrior export task_eq fuel raw) c).1 = Ok tt ↔
   ∀ tw, tw ∈ ws → uuids_of raw tw ≠ [] →
         ∃ tasks, export tw (uuids_of raw tw) = Ok tasks).
Proof.
  revert c. induction ws as [|tw0 ws IH]; intros c.
  - simpl. split; [apply same_but_tasks_refl|]. split; [done|]. split; [done|].
    split; [|done]. intros _ tw Htw. by apply elem_of_nil in Htw.
  - assert (∀ c0, for_ (tw0 :: ws) (load_from_warrior export task_eq fuel raw) c0
            = match load_from_warrior export task_eq fuel raw tw0 c0 with
              | (Ok _, c1) => for_ ws (load_from_warrior export task_eq fuel raw) c1
              | (Raise e, c1) => (Raise e, c1)
              | (OutOfFuel, c1) => (OutOfFuel, c1)
              end) as Hstep by reflexivity.
    rewrite Hstep. setoid_rewrite Hstep. setoid_rewrite load_from_warrior_spec.
    simpl. destruct (uuids_of raw tw0) as [|u0 uuids0] eqn:Huuids.
    { destruct (IH c) as (Hsame & Htask & Hout & Hok).
      split; [done|]. split; [done|]. split; [done|]. rewrite Hok. split.
      - intros H tw Htw Hne. apply elem_of_cons in Htw as [->|Htw];
          [congruence|by apply H].
      - intros H tw Htw. apply H. by right. }
    rewrite <- Huuids.
    destruct (export tw0 (uuids_of raw tw0)) as [ts0|e|] eqn:Hexp.
    + set (c1 := set_task _ _).
      destruct (IH c1) as (Hsame & Htask & Hout & Hok).
      split; [|split; [|split]].
      * eapply same_but_tasks_trans; [|exact Hsame]. by repeat split.
      * by rewrite Htask.
      * intros c'. by rewrite !(Hout (set_task _ _)).
      * rewrite Hok. split.
        -- intros H tw Htw Hne. apply elem_of_cons in Htw as [->|Htw];
             [by eexists|by apply H].
        -- intros H tw Htw. apply H. by right.
    + split; [by repeat split|]. split; [done|]. split; [done|].
      split; [done|]. intros H. destruct (H tw0) as [ts Hts]; [left|congruence|].
      congruence.
    + split; [by repeat split|]. split; [done|]. split; [done|].
      split; [done|]. intros H. destruct (H tw0) as [ts Hts]; [left|congruence|].
      congruence.
Qed.

Lemma load_tasks_unfold fuel c :
  load_tasks GENERIC_TASK export task_eq fuel c
    = match collect_raw_task_info GENERIC_TASK (buffer c) [] c with
      | (Ok raw, c1) =>
          for_ (WarriorStore_values (warriors c1))
               (load_from_warrior export task_eq fuel raw) c1
      | (Raise e, c1) => (Raise e, c1)
      | (OutOfFuel, c1) => (OutOfFuel, c1)
      end.
Proof. reflexivity. Qed.

(** X10.  When a matching line of the buffer names a store that is not
    configured, with or without a uuid on that line, [load_tasks] raises
    [TaskWikiException] before any connection is contacted and changes
    nothing. *)
Theorem load_tasks_unknown_store fuel c l source uuid :
  l ∈ buffer c → GENERIC_TASK l = Some (source, uuid) →
  warriors c !! py_or source "default" = None →
  ∃ key, load_tasks GENERIC_TASK export task_eq fuel c
           = (Raise (TaskWikiException key), c).
Proof.
  intros Hl Hm Hw. rewrite load_tasks_unfold.
  destruct (proj2 (collect_raises_iff (buffer c) [] c)) as [key ->];
    [by exists l, source, uuid|].
  by exists key.
Qed.

(** X11.  When no line of the buffer carries a uuid (and the stores that
    the matching lines name are configured), [load_tasks] contacts no
    connection and returns with the state unchanged; so it does on an
    empty buffer. *)
Theorem load_tasks_nothing_to_load fuel c :
  (∀ l source uuid, l ∈ buffer c → GENERIC_TASK l = Some (source, uuid) →
                    truthy uuid = false ∧
                    is_Some (warriors c !! py_or source "default")) →
  load_tasks GENERIC_TASK export task_eq fuel c = (Ok tt, c).
Proof.
  intros Hlines. rewrite load_tasks_unfold.
  destruct (collect_raw_task_info_spec GENERIC_TASK (buffer c) [] c)
    as [(raw & -> & Hraw)|Hraise].
  - assert (raw = []) as ->.
    { destruct raw as [|[u tw] raw]; [done|]. exfalso.
      destruct (proj1 (Hraw u tw)) as [H|(l & s & Hl & Hm & Hu & _)]; [left| |].
      - by apply elem_of_nil in H.
      - destruct (Hlines l s (Some u) Hl Hm) as [Ht _]. simpl in Ht.
        apply negb_false_iff, bool_decide_eq_true in Ht. done. }
    induction (WarriorStore_values (warriors c)) as [|tw ws IH]; [done|].
    simpl. unfold bind at 1. rewrite load_from_warrior_spec. simpl. exact IH.
  - apply collect_raises_iff in Hraise as (l & s & u & Hl & Hm & Hw).
    destruct (Hlines l s u Hl Hm) as [_ [tw Htw]]. congruence.
Qed.

Lemma load_tasks_same_but_tasks fuel c :
  same_but_tasks c (load_tasks GENERIC_TASK export task_eq fuel c).2 ∧
  trace c `prefix_of` trace (load_tasks GENERIC_TASK export task_eq fuel c).2.
Proof.
  rewrite load_tasks_unfold.
  destruct (collect_raw_task_info_spec GENERIC_TASK (buffer c) [] c)
    as [(raw & -> & Hraw)|[key ->]].
  - split; [apply load_loop_state|].
    destruct (load_loop_spec export task_eq fuel raw
                (WarriorStore_values (warriors c)) c) as (queried & Htrace & _).
    cbv zeta in Htrace. rewrite Htrace. by eexists.
  - split; [apply same_but_tasks_refl|done].
Qed.

(** X12.  [load_tasks] writes to the identity cache and to nothing else:
    the buffer, the wrappers, the position, viewport and line caches,
    the connections and the authority flag are as before, and the trace
    is only extended. *)
Theorem load_tasks_frame fuel c :
  same_but_tasks c (load_tasks GENERIC_TASK export task_eq fuel c).2 ∧
  trace c `prefix_of` trace (load_tasks GENERIC_TASK export task_eq fuel c).2.
Proof. apply load_tasks_same_but_tasks. Qed.

(** X13.  [load_tasks] returns normally only if every connection in which
    the buffer names a uuid answered its query: an exception of a
    connection is never swallowed. *)
Theorem load_tasks_failure_not_swallowed fuel c tw u :
  tw ∈ WarriorStore_values (warriors c) → references GENERIC_TASK c u tw →
  (∀ uuids tasks, export tw uuids ≠ Ok tasks) →
  (load_tasks GENERIC_TASK export task_eq fuel c).1 ≠ Ok tt.
Proof.
  intros Htw Href Hfail. rewrite load_tasks_unfold.
  destruct (collect_raw_task_info_spec GENERIC_TASK (buffer c) [] c)
    as [(raw & -> & Hraw)|[key ->]]; [|done].
  intros Hok.
  destruct (load_loop_state fuel raw (WarriorStore_values (warriors c)) c)
    as (_ & _ & _ & Hiff).
  pose proof (proj1 Hiff Hok) as Hall. destruct (Hall tw Htw) as [ts Hts].
  - intros Hnil. assert (u ∈ uuids_of raw tw) as Hu.
    { apply elem_of_uuids_of, Hraw. by right. }
    rewrite Hnil in Hu. by apply elem_of_nil in Hu.
  - by apply Hfail in Hts.
Qed.

End load_tasks_more.

Lemma load_tasks_unknown_store_witness :
  ∃ key, load_tasks unknown_store_GENERIC_TASK sample_export never_equal 1
           unknown_store
         = (Raise (TaskWikiException key), unknown_store).
Proof.
  apply (load_tasks_unknown_store unknown_store_GENERIC_TASK sample_export
           never_equal 1 unknown_store "@home" (Some "home") None).
  - right. left.
  - reflexivity.
  - reflexivity.
Defined.

Lemma load_tasks_nothing_to_load_witness :
  load_tasks sample_GENERIC_TASK sample_export never_equal 1 one_line
    = (Ok tt, one_line).
Proof.
  apply (load_tasks_nothing_to_load sample_GENERIC_TASK sample_export
           never_equal 1 one_line).
  intros l source uuid Hl Hm. simpl in Hl.
  apply list_elem_of_singleton in Hl as ->. discriminate Hm.
Defined.

Lemma load_tasks_failure_not_swallowed_witness :
  (load_tasks sample_GENERIC_TASK failing_export never_equal 1 two_tasks).1
    ≠ Ok tt.
Proof.
  apply (load_tasks_failure_not_swallowed sample_GENERIC_TASK failing_export
           never_equal 1 two_tasks 0%nat "aa").
  - vm_compute. right. left.
  - exists "#aa", None. split; [left|]. split; [reflexivity|].
    split; [discriminate|reflexivity].
  - intros uuids tasks. discriminate.
Defined.

Section load_tasks_cache.
Variable GENERIC_TASK : string → option (option string * option string).
Variable export : TaskWarrior → list string → outcome (list Task).
Variable task_eq : option Task → pykey → bool.

(** X14.  After [reset], a [load_tasks] that returns normally leaves in
    the identity cache nothing but the tasks that its queries returned,
    each under the [ShortUUID] of its uuid and connection. *)
Theorem load_tasks_after_reset fuel c key v :
  (load_tasks GENERIC_TASK export task_eq fuel (reset c).2).1 = Ok tt →
  task (load_tasks GENERIC_TASK export task_eq fuel (reset c).2).2 !! key = Some v →
  ∃ tw uuids tasks t,
    tw ∈ WarriorStore_values (warriors c) ∧
    (∀ u, u ∈ uuids ↔ references GENERIC_TASK c u tw) ∧
    export tw uuids = Ok tasks ∧ t ∈ tasks ∧
    key = KShortUUID (task_uuid t) tw ∧ v = Some t.
Proof.
  change (reset c).2
    with (set_line ∅ (set_viewport ∅ (set_vwtask ∅ (set_task ∅ c)))).
  set (c0 := set_line ∅ _). rewrite load_tasks_unfold.
  destruct (collect_raw_task_info_spec GENERIC_TASK (buffer c0) [] c0)
    as [(raw & -> & Hraw)|[k ->]]; [|done].
  destruct (load_loop_spec export task_eq fuel raw
              (WarriorStore_values (warriors c0)) c0)
    as (queried & _ & Hsub & _ & Hok).
  cbv zeta in Hok. intros Hr Hv. destruct (Hok Hr) as [_ Hkeys].
  destruct (Hkeys key) as [(tw & ts & t & Htw & He & Ht & Hk & Hl)|[_ Hl]].
  - exists tw, (uuids_of raw tw), ts, t. split.
    { by eapply elem_of_sublist. }
    split.
    { intros u. rewrite elem_of_uuids_of, Hraw. split.
      - intros [H|H]; [by apply elem_of_nil in H|exact H].
      - intros H. right. exact H. }
    split; [done|]. split; [done|]. split; [done|]. congruence.
  - rewrite Hl in Hv. subst c0. simpl in Hv. by rewrite lookup_empty in Hv.
Qed.





Lemma store_tasks_no_none tw tasks d : no_none d → no_none (store_tasks tw tasks d).
Proof.
  revert d. induction tasks as [|t tasks IH]; intros d Hd; [done|].
  apply (IH (<[KShortUUID (task_uuid t) tw := Some t]> d)).
  intros key. destruct (decide (key = KShortUUID (task_uuid t) tw)) as [->|Hne].
  - by rewrite lookup_insert_eq.
  - rewrite lookup_insert_ne by done. apply Hd.
Qed.

Lemma loaded_no_none raw ws d : no_none d → no_none (loaded export raw ws d).
Proof.
  revert d. induction ws as [|tw ws IH]; intros d Hd; simpl; [done|].
  destruct (uuids_of raw tw) as [|u uuids]; [by apply IH|].
  destruct (export tw (u :: uuids)); [|done|done].
  by apply IH, store_tasks_no_none.
Qed.

Lemma load_tasks_no_none fuel c :
  no_none (task c) →
  no_none (task (load_tasks GENERIC_TASK export task_eq fuel c).2).
Proof.
  intros Hd. rewrite load_tasks_unfold.
  destruct (collect_raw_task_info_spec GENERIC_TASK (buffer c) [] c)
    as [(raw & -> & _)|[k ->]]; [|done].
  destruct (load_loop_state export task_eq fuel raw
              (WarriorStore_values (warriors c)) c) as (_ & -> & _).
  by apply loaded_no_none.
Qed.

End load_tasks_cache.

Lemma load_tasks_after_reset_witness :
  ∃ tw uuids tasks t,
    tw ∈ WarriorStore_values (warriors two_tasks) ∧
    (∀ u, u ∈ uuids ↔ references sample_GENERIC_TASK two_tasks u tw) ∧
    sample_export tw uuids = Ok tasks ∧ t ∈ tasks ∧
    KShortUUID "aa" 0 = KShortUUID (task_uuid t) tw ∧
    Some {| task_uuid := "aa"; task_description := "task" |} = Some t.
Proof.
  apply (load_tasks_after_reset sample_GENERIC_TASK sample_export never_equal
           1 two_tasks (KShortUUID "aa" 0)
           (Some {| task_uuid := "aa"; task_description := "task" |})).
  - vm_compute. reflexivity.
  - vm_compute. reflexivity.
Defined.

(** ** What the methods never do *)

Lemma run_op_stores_frame object_eq fuel op c :
  task (run_op object_eq fuel op c).2 = task c ∧
  viewport (run_op object_eq fuel op c).2 = viewport c ∧
  line (run_op object_eq fuel op c).2 = line c ∧
  warriors (run_op object_eq fuel op c).2 = warriors c ∧
  buffer_has_authority (run_op object_eq fuel op c).2 = buffer_has_authority c ∧
  trace (run_op object_eq fuel op c).2 = trace c.
Proof.
  destruct op as [l p|p|p1 p2]; simpl.
  - unfold insert_line, buffer_append, self_vimwikitask_cache. step_st.
    by case_decide.
  - unfold remove_line, buffer_delitem, self_vimwikitask_cache. step_st.
    by destruct (buffer_index _ _).
  - unfold swap_lines, buffer_len, buffer_getitem, buffer_setitem. step_st.
    case_decide; [done|].
    destruct (buffer_index (buffer c) p2 ≫= _) as [l2|]; [|done].
    destruct (buffer_index (buffer c) p1 ≫= _) as [l1|]; [|done].
    destruct (buffer_index (buffer c) p2) as [i2|]; [|done]. simpl.
    destruct (buffer_index _ p1) as [i1|]; [|done]. simpl.
    unfold bind. rewrite vwtask_getitem_raises. done.
Qed.

Lemma log_all_frame ts c :
  same_but_tasks c (foldl (λ c' t, log (SaveToTw t) c') c ts) ∧
  task (foldl (λ c' t, log (SaveToTw t) c') c ts) = task c.
Proof.
  revert c. induction ts as [|t ts IH]; intros c; simpl.
  - split; [apply same_but_tasks_refl|done].
  - destruct (IH (log (SaveToTw t) c)) as [Hs Ht]. split; [|by rewrite Ht].
    eapply same_but_tasks_trans; [|exact Hs]. by repeat split.
Qed.

Lemma load_vwtasks_state authority c :
  (buffer c = [] ∧ load_vwtasks authority c = (Ok tt, c)) ∨
  (buffer c ≠ [] ∧
   ∃ name, load_vwtasks authority c
             = (Raise (NameError name), set_buffer_has_authority authority c)).
Proof.
  destruct (buffer c) as [|l b] eqn:Hb.
  - left. split; [done|]. unfold load_vwtasks. step_st. rewrite Hb. simpl.
    by destruct c.
  - right. split; [done|]. eexists. apply load_vwtasks_raises. by rewrite Hb.
Qed.

(** X16.  No method of the cache puts a [None] into one of its four
    stores: when the stores hold no [None], they hold none after
    [reset], [load_tasks], [load_vwtasks], [save_tasks], [insert_line],
    [remove_line] or [swap_lines], however the call ends. *)
Theorem stores_never_hold_none GENERIC_TASK export task_eq object_eq fuel c :
  stores_hold_no_none c →
  stores_hold_no_none (reset c).2 ∧
  stores_hold_no_none (load_tasks GENERIC_TASK export task_eq fuel c).2 ∧
  (∀ authority, stores_hold_no_none (load_vwtasks authority c).2) ∧
  stores_hold_no_none (save_tasks fuel c).2 ∧
  (∀ op, stores_hold_no_none (run_op object_eq fuel op c).2).
Proof.
  intros (Ht & Hv & Hp & Hl).
  split; [|split; [|split; [|split]]].
  - repeat split; simpl; intros key; by rewrite lookup_empty.
  - destruct (load_tasks_same_but_tasks GENERIC_TASK export task_eq fuel c)
      as [(_ & _ & Hv' & Hp' & Hl' & _) _].
    split; [by apply load_tasks_no_none|]. by rewrite Hv', Hp', Hl'.
  - intros authority.
    destruct (load_vwtasks_state authority c) as [[_ ->]|[_ [name ->]]];
      by repeat split.
  - unfold save_tasks. destruct (vimwikitask_dependency_order fuel c) as [yss r].
    simpl. destruct (log_all_frame (concat yss) c)
      as [(_ & _ & Hv' & Hp' & Hl' & _) Ht'].
    unfold stores_hold_no_none. by rewrite Ht', Hv', Hp', Hl'.
  - intros op.
    destruct (run_op_stores_frame object_eq fuel op c) as (Ht' & Hp' & Hl' & _).
    destruct (run_op_cache_frame object_eq fuel op c) as (Hv' & _).
    unfold stores_hold_no_none. by rewrite Ht', Hv', Hp', Hl'.
Qed.

(** X17.  [load_vwtasks] returns normally exactly on an empty document,
    and then leaves everything, the authority flag included, as it was. *)
Theorem load_vwtasks_returns_iff_empty authority c :
  ((load_vwtasks authority c).1 = Ok tt ↔ buffer c = []) ∧
  (buffer c = [] → (load_vwtasks authority c).2 = c).
Proof.
  destruct (load_vwtasks_state authority c) as [[Hb ->]|[Hb [name ->]]]; simpl.
  - by split.
  - split; [|done]. by split.
Qed.

Lemma stores_hold_no_none_three_lines : stores_hold_no_none three_lines.
Proof.
  repeat split; try (intros key; simpl; by rewrite lookup_empty).
  intros key Hkey. unfold three_lines in Hkey. simpl in Hkey.
  apply lookup_insert_Some in Hkey as [[_ [=]]|[_ Hkey]].
  apply lookup_insert_Some in Hkey as [[_ [=]]|[_ Hkey]].
  by apply lookup_singleton_Some in Hkey as [_ [=]].
Qed.

Lemma stores_never_hold_none_witness :
  stores_hold_no_none (reset three_lines).2 ∧
  stores_hold_no_none
    (load_tasks sample_GENERIC_TASK sample_export never_equal 1 three_lines).2 ∧
  (∀ authority, stores_hold_no_none (load_vwtasks authority three_lines).2) ∧
  stores_hold_no_none (save_tasks 1 three_lines).2 ∧
  (∀ op, stores_hold_no_none (run_op never_equal 1 op three_lines).2).
Proof.
  apply (stores_never_hold_none sample_GENERIC_TASK sample_export never_equal
           never_equal 1 three_lines).
  exact stores_hold_no_none_three_lines.
Defined.

(** ** More on the save order *)

Section save_order.
Variable h : ref → VimwikiTask.
Implicit Types (ic : gmap pykey ref) (k key : pykey) (w t : ref).

(** Whatever its outcome, a run of the loop is a sequence of yields that
    leads to the working set after that many passes. *)
Lemma after_passes_S_inner n ic :
  after_passes (S n) h ic
    = after_passes n h (dependency_scan h (dict_keys ic) ic).1.1.
Proof.
  induction n as [|n IH]; [done|].
  change (after_passes (S (S n)) h ic) with
    ((dependency_scan h (dict_keys (after_passes (S n) h ic))
        (after_passes (S n) h ic)).1.1).
  by rewrite IH.
Qed.

Lemma after_passes_empty n : after_passes n h ∅ = ∅.
Proof.
  induction n as [|n IH]; [done|]. simpl. rewrite IH.
  unfold dict_keys. by rewrite map_to_list_empty.
Qed.

Lemma dependency_loop_partial fuel ic :
  yields_from h ic (concat (dependency_loop fuel h ic).1)
    (after_passes fuel h ic).
Proof.
  revert ic. induction fuel as [|fuel IH]; intros ic.
  - simpl. case_decide; constructor.
  - rewrite after_passes_S_inner. simpl. case_decide as Hic.
    { subst. simpl. unfold dict_keys. rewrite map_to_list_empty. simpl.
      rewrite after_passes_empty. constructor. }
    destruct (full_pass_spec h ic) as (ic' & ys & Heq & Hy & _).
    rewrite Heq. simpl. specialize (IH ic').
    destruct (dependency_loop fuel h ic') as [yss r]. simpl in *.
    by eapply yields_from_app.
Qed.

Lemma after_passes_subseteq n ic : after_passes n h ic ⊆ ic.
Proof.
  pose proof (dependency_loop_partial n ic) as H.
  by apply yields_from_subseteq in H.
Qed.

Lemma after_passes_mono n m ic :
  (n ≤ m)%nat → after_passes m h ic ⊆ after_passes n h ic.
Proof.
  induction 1 as [|m Hle IH]; [done|]. etrans; [|exact IH].
  simpl. destruct (full_pass_spec h (after_passes m h ic)) as (ic' & ys & -> & Hy & _).
  simpl. by eapply yields_from_subseteq.
Qed.

(** A key whose chains of waiting all end leaves the working set after
    finitely many passes. *)
Lemma accessible_key_leaves ic k :
  Acc (flip (waits_for h ic)) k → ∃ n, after_passes n h ic !! k = None.
Proof.
  induction 1 as [k _ IH].
  destruct (ic !! k) as [w|] eqn:Hw; [|by exists 0%nat].
  assert (∀ ts : list nat, (∀ t, t ∈ ts → t ∈ add_dependencies (h w)) →
            ∃ N, ∀ t, t ∈ ts →
                 after_passes N h ic !! KInt (line_number (h t)) = None) as Hdeps.
  { induction ts as [|t ts IHts]; intros Hts.
    - exists 0%nat. intros t Ht. by apply elem_of_nil in Ht.
    - destruct IHts as [N1 HN1]; [intros t' Ht'; apply Hts; by right|].
      assert (∃ N2, after_passes N2 h ic !! KInt (line_number (h t)) = None)
        as [N2 HN2].
      { destruct (ic !! KInt (line_number (h t))) as [x|] eqn:Hx;
          [|by exists 0%nat].
        apply IH. exists w, t. split; [done|].
        split; [apply Hts; left|]. split; [done|by eexists]. }
      exists (N1 `max` N2)%nat. intros t' Ht'.
      apply elem_of_cons in Ht' as [->|Ht'].
      + eapply lookup_weaken_None; [exact HN2|]. apply after_passes_mono. lia.
      + eapply lookup_weaken_None; [by apply HN1|]. apply after_passes_mono. lia. }
  destruct (Hdeps (add_dependencies (h w))) as [N HN]; [done|].
  exists (S N). simpl.
  destruct (full_pass_spec h (after_passes N h ic)) as (ic' & ys & -> & Hy & Hall).
  simpl. destruct (after_passes N h ic !! k) as [w'|] eqn:Hw'.
  - assert (w' = w) as ->.
    { pose proof (lookup_weaken _ _ _ _ Hw' (after_passes_subseteq N ic)).
      congruence. }
    apply (Hall k w Hw'). by apply ready_true.
  - eapply lookup_weaken_None; [exact Hw'|]. by eapply yields_from_subseteq.
Qed.

End save_order.

Lemma waits_for_cycle_successor h ic k :
  waits_for_cycle h ic k →
  ∃ k', waits_for h ic k k' ∧ waits_for_cycle h ic k'.
Proof.
  intros (k0 & Hpath & Hcyc). inversion Hpath as [|? k1 ? Hstep Hrest]; subst.
  - destruct (cycle_successor h ic k0 Hcyc) as (k' & Hstep & Hcyc').
    exists k'. split; [done|]. by exists k'.
  - exists k1. split; [done|]. by exists k0.
Qed.

(** Keys that wait for a cycle of the initial working set stay in it. *)
Lemma yields_from_keeps_waiting h ic0 ic ys ic' :
  yields_from h ic ys ic' →
  (∀ k, waits_for_cycle h ic0 k → ic !! k = ic0 !! k) →
  (∀ k, waits_for_cycle h ic0 k → ic' !! k = ic0 !! k).
Proof.
  induction 1 as [|ic key w xs ic' Hk Hr Hy IH]; intros Hkeep; [done|].
  apply IH. intros k Hcyc.
  destruct (decide (k = key)) as [->|Hne]; [|by rewrite lookup_delete_ne; auto].
  exfalso.
  destruct (waits_for_cycle_successor h ic0 key Hcyc)
    as (k' & (w' & t & Hw' & Ht & -> & Hs) & Hcyc').
  rewrite <- (Hkeep key Hcyc) in Hw'. simplify_eq.
  rewrite <- (Hkeep _ Hcyc') in Hs.
  apply ready_true with (t := t) in Hr; [|done].
  rewrite Hr in Hs. by destruct Hs.
Qed.


(** X19.  In every run of the save order, with or without cycles and
    however many passes are made, a wrapper is yielded only after the
    materialized wrapper that sits on the line number of each of its
    dependencies. *)
Theorem yields_after_dependencies fuel c i w t d :
  concat (vimwikitask_dependency_order fuel c).1 !! i = Some w →
  t ∈ add_dependencies (objects c w) →
  materialized c !! KInt (line_number (objects c t)) = Some d →
  d ∈ take i (concat (vimwikitask_dependency_order fuel c).1).
Proof.
  intros Hi Ht Hd.
  pose proof (dependency_loop_partial (objects c) fuel (materialized c)) as Hy.
  unfold vimwikitask_dependency_order in *.
  rewrite <- (take_drop_middle _ _ _ Hi) in Hy.
  destruct (yields_from_split _ _ _ _ _ _ Hy) as (ic1 & key & Hy1 & Hk & Hr).
  eapply yields_from_removed; [exact Hy1|exact Hd|].
  by eapply ready_true in Hr.
Qed.

Lemma yields_after_dependencies_witness :
  11%nat ∈ take 2 (concat (vimwikitask_dependency_order 3 three_lines).1).
Proof.
  apply (yields_after_dependencies 3 three_lines 2 12%nat 11%nat 11%nat).
  - reflexivity.
  - simpl. left.
  - reflexivity.
Defined.

(** X20.  The save order comes to an end, for some number of passes,
    exactly when no wrapper of the working set waits, directly or through
    others, for itself. *)
Theorem save_order_ends_iff_no_cycle c :
  (∃ fuel yss, vimwikitask_dependency_order fuel c = (yss, Ok tt)) ↔
  ∀ k, ¬ tc (waits_for (objects c) (materialized c)) k k.
Proof.
  unfold vimwikitask_dependency_order. split.
  - intros (fuel & yss & Heq) k Hk.
    pose proof (dependency_loop_stuck (objects c) (materialized c) fuel
                  (materialized c)) as Hstuck.
    rewrite Heq in Hstuck. simpl in Hstuck.
    by discriminate Hstuck; [exists k|].
  - intros Hac.
    destruct (dependency_loop_terminates (objects c) (size (materialized c))
                (materialized c)) as [yss Hyss]; [done|done|].
    exists (size (materialized c)), yss. by apply Hyss.
Qed.

(** X21.  When the wrappers are stored under their line numbers, a
    wrapper that waits, directly or through others, for a wrapper on a
    cycle is never yielded, however many passes are made. *)
Theorem behind_cycle_never_yielded fuel c k w :
  position_invariant c →
  materialized c !! k = Some w →
  waits_for_cycle (objects c) (materialized c) k →
  w ∉ concat (vimwikitask_dependency_order fuel c).1.
Proof.
  intros Hinv Hw Hwait.
  pose proof (dependency_loop_partial (objects c) fuel (materialized c)) as Hy.
  pose proof (yields_from_keeps_waiting _ (materialized c) _ _ _ Hy
                (λ _ _, eq_refl) k Hwait) as Hkeep.
  pose proof (materialized_values_NoDup c Hinv) as Hnd.
  rewrite (yields_from_values _ _ _ _ Hy) in Hnd.
  apply NoDup_app in Hnd as (_ & Hdisj & _).
  intros Hin. apply (Hdisj w Hin).
  apply list_elem_of_fmap. exists (k, w). split; [done|].
  apply elem_of_map_to_list. by rewrite Hkeep.
Qed.

(** X22.  A wrapper of the working set whose chains of waiting all end
    is yielded once enough passes are made. *)
Theorem accessible_wrapper_yielded c k w :
  Acc (flip (waits_for (objects c) (materialized c))) k →
  materialized c !! k = Some w →
  ∃ n, ∀ fuel, (n ≤ fuel)%nat →
               w ∈ concat (vimwikitask_dependency_order fuel c).1.
Proof.
  intros Hacc Hw.
  destruct (accessible_key_leaves (objects c) (materialized c) k Hacc) as [n Hn].
  exists n. intros fuel Hfuel.
  pose proof (dependency_loop_partial (objects c) fuel (materialized c)) as Hy.
  eapply yields_from_removed; [exact Hy|exact Hw|].
  eapply lookup_weaken_None; [exact Hn|]. by apply after_passes_mono.
Qed.

(** X23.  After [reset] the four stores are empty and everything else is
    as before; the position invariant holds, and [save_tasks] ends at
    once, without a pass and without saving anything, even if the cache
    held a dependency cycle before. *)
Theorem reset_clears fuel c :
  (reset c).1 = Ok tt ∧
  task (reset c).2 = ∅ ∧ vwtask (reset c).2 = ∅ ∧
  viewport (reset c).2 = ∅ ∧ line (reset c).2 = ∅ ∧
  buffer (reset c).2 = buffer c ∧ warriors (reset c).2 = warriors c ∧
  buffer_has_authority (reset c).2 = buffer_has_authority c ∧
  position_invariant (reset c).2 ∧
  save_tasks fuel (reset c).2 = (Ok tt, (reset c).2).
Proof.
  repeat split.
  - simpl. intros key r H. by rewrite lookup_empty in H.
  - simpl. intros k1 k2 r1 r2 H. by rewrite lookup_empty in H.
  - unfold save_tasks, vimwikitask_dependency_order, materialized. simpl.
    rewrite omap_empty. by destruct fuel.
Qed.

Lemma behind_cycle_lookup key r :
  vwtask behind_cycle !! key = Some (Some r) →
  (key = KInt 0 ∧ r = 10%nat) ∨ (key = KInt 1 ∧ r = 11%nat) ∨
  (key = KInt 2 ∧ r = 12%nat) ∨ (key = KInt 3 ∧ r = 13%nat).
Proof.
  unfold behind_cycle. simpl. intros H.
  apply lookup_insert_Some in H as [[<- H]|[_ H]]; [by simplify_eq; auto|].
  apply lookup_insert_Some in H as [[<- H]|[_ H]]; [by simplify_eq; auto|].
  apply lookup_insert_Some in H as [[<- H]|[_ H]]; [by simplify_eq; auto 6|].
  apply lookup_singleton_Some in H as [<- H]. by simplify_eq; auto 6.
Qed.

Lemma behind_cycle_position_invariant : position_invariant behind_cycle.
Proof.
  split.
  - intros key r H.
    by destruct (behind_cycle_lookup _ _ H)
      as [[-> ->]|[[-> ->]|[[-> ->]|[-> ->]]]].
  - intros k1 k2 r1 r2 H1 H2.
    destruct (behind_cycle_lookup _ _ H1)
      as [[-> ->]|[[-> ->]|[[-> ->]|[-> ->]]]];
      destruct (behind_cycle_lookup _ _ H2)
        as [[-> ->]|[[-> ->]|[[-> ->]|[-> ->]]]];
      simpl; intros; done.
Qed.

Lemma behind_cycle_waits :
  waits_for_cycle (objects behind_cycle) (materialized behind_cycle) (KInt 2).
Proof.
  exists (KInt 1). split.
  - apply rtc_once. exists 12%nat, 11%nat.
    split; [reflexivity|]. split; [left|]. split; [reflexivity|by eexists].
  - apply tc_l with (KInt 0); [|apply tc_once].
    + exists 11%nat, 10%nat.
      split; [reflexivity|]. split; [left|]. split; [reflexivity|by eexists].
    + exists 10%nat, 11%nat.
      split; [reflexivity|]. split; [left|]. split; [reflexivity|by eexists].
Qed.

Lemma behind_cycle_never_yielded_witness :
  12%nat ∉ concat (vimwikitask_dependency_order 5 behind_cycle).1.
Proof.
  apply (behind_cycle_never_yielded 5 behind_cycle (KInt 2) 12%nat).
  - exact behind_cycle_position_invariant.
  - reflexivity.
  - exact behind_cycle_waits.
Defined.

(** In [behind_cycle] only the wrapper of line 3 is ever saved. *)
Example behind_cycle_order :
  vimwikitask_dependency_order 5 behind_cycle
    = ([[13]; []; []; []; []]%nat, OutOfFuel).
Proof. vm_compute. reflexivity. Qed.

Lemma three_lines_accessible :
  Acc (flip (waits_for (objects three_lines) (materialized three_lines))) (KInt 2).
Proof.
  constructor. intros y (w & t & Hw & Ht & -> & _).
  vm_compute in Hw. injection Hw as <-. simpl in Ht.
  apply list_elem_of_singleton in Ht as ->. simpl.
  constructor. intros y (w & t & Hw & Ht & _).
  vm_compute in Hw. injection Hw as <-. simpl in Ht.
  by apply elem_of_nil in Ht.
Qed.

Lemma accessible_wrapper_yielded_witness :
  ∃ n, ∀ fuel, (n ≤ fuel)%nat →
               12%nat ∈ concat (vimwikitask_dependency_order fuel three_lines).1.
Proof.
  apply (accessible_wrapper_yielded three_lines (KInt 2) 12%nat).
  - exact three_lines_accessible.
  - reflexivity.
Defined.

(** ** get_viewport_by_task *)

Lemma first_port_with_spec contains ports :
  None ∉ ports →
  ∃ r, first_port_with contains ports = Ok r ∧
       (∀ port, r = Some port → Some port ∈ ports ∧ contains port = true) ∧
       (r = None → ∀ port, Some port ∈ ports → contains port = false).
Proof.
  induction ports as [|[p|] ports IH]; intros Hno; simpl.
  - exists None. split; [done|]. split; [done|].
    intros _ port Hp. by apply elem_of_nil in Hp.
  - destruct (contains p) eqn:Hc.
    + exists (Some p). split; [done|]. split; [|done].
      intros port [= <-]. split; [left|done].
    + destruct IH as (r & -> & Hsome & Hnone).
      { intros Hin. apply Hno. by right. }
      exists r. split; [done|]. split.
      * intros port Hr. destruct (Hsome port Hr). split; [by right|done].
      * intros Hr port Hp. apply elem_of_cons in Hp as [[= ->]|Hp];
          [done|by apply Hnone].
  - exfalso. apply Hno. left.
Qed.

(** X24.  On a viewport cache that holds no [None],
    [get_viewport_by_task] returns normally and changes nothing; a
    viewport it returns is one of the cached viewports and contains the
    task, and it returns [None] only when no cached viewport contains
    the task. *)
Theorem get_viewport_by_task_spec port_contains t c :
  no_none (viewport c) →
  ∃ r, get_viewport_by_task port_contains t c = (Ok r, c) ∧
       (∀ port, r = Some port →
                (∃ key, viewport c !! key = Some (Some port)) ∧
                port_contains t port = true) ∧
       (r = None → ∀ key port, viewport c !! key = Some (Some port) →
                               port_contains t port = false).
Proof.
  intros Hno. unfold get_viewport_by_task, NoNoneStore_values.
  destruct (first_port_with_spec (port_contains t) (map_to_list (viewport c)).*2)
    as (r & -> & Hsome & Hnone).
  { intros Hin. apply list_elem_of_fmap in Hin as ([k v] & Hv & Hin).
    simpl in Hv. subst v. apply elem_of_map_to_list in Hin. by apply Hno in Hin. }
  exists r. split; [done|]. split.
  - intros port Hr. destruct (Hsome port Hr) as [Hin Hc]. split; [|done].
    apply list_elem_of_fmap in Hin as ([k v] & Hv & Hin). simpl in Hv. subst v.
    exists k. by apply elem_of_map_to_list.
  - intros Hr key port Hl. apply (Hnone Hr).
    apply list_elem_of_fmap. exists (key, Some port). split; [done|].
    by apply elem_of_map_to_list.
Qed.

Lemma get_viewport_by_task_spec_witness :
  ∃ r, get_viewport_by_task sample_port_contains
         {| task_uuid := "aa"; task_description := "task" |} sample_ports
       = (Ok r, sample_ports) ∧
       (∀ port, r = Some port →
                (∃ key, viewport sample_ports !! key = Some (Some port)) ∧
                sample_port_contains
                  {| task_uuid := "aa"; task_description := "task" |} port = true) ∧
       (r = None → ∀ key port, viewport sample_ports !! key = Some (Some port) →
                   sample_port_contains
                     {| task_uuid := "aa"; task_description := "task" |} port
                   = false).
Proof.
  apply (get_viewport_by_task_spec sample_port_contains
           {| task_uuid := "aa"; task_description := "task" |} sample_ports).
  intros key Hkey. unfold sample_ports in Hkey. simpl in Hkey.
  by apply lookup_singleton_Some in Hkey as [_ [=]].
Defined.
